(** * mongoload: the job handlers and the load engine

    A shallow embedding of two packages of the repository:

    - package [driver] (the job handlers): [NewJobHandler] and the four
      [Handle] methods;
    - package [mongoload] (the engine): [New], [Torment], [cancel],
      [worker] and [performSingleOperation].

    Go interfaces whose implementations live in other packages
    ([database.Client], [schema.DataProvider], [database.DbClient],
    [rps.Limiter]) are taken as method tables or as answers of the
    environment.  The job pool of package [worker] is modelled from the
    specification. *)

From Stdlib Require Import ZArith String List Lia Bool.
From stdpp Require Import base tactics option list sets gmap strings.

Import ListNotations.
Local Open Scope Z_scope.

(** ** Go values shared by both packages *)

(** A Go [error]: [None] is [nil]. *)
Definition error := option string.

(** What a call produces: a value, or a panic with its message. *)
Inductive outcome (A : Type) : Type :=
| Returned (a : A)
| Panicked (msg : string).
Arguments Returned {A} a.
Arguments Panicked {A} msg.

Definition returns {A : Type} (o : outcome A) : bool :=
  match o with Returned _ => true | Panicked _ => false end.

(* ================================================================== *)
(** ** Package driver *)
(* ================================================================== *)

Module Driver.

Section Handlers.

(** Documents, filters and schemas belong to packages [schema] and
    [database]; their representation does not matter here. *)
Variables (Item Filter Schema : Type).

(** The mutable state behind the provider and behind the client. *)
Variables (PState CState : Type).

(** The job type constants of package [config]. *)
Variables (Write Read Update BulkWrite : string).

(** [config.Job], as far as [NewJobHandler] reads it. *)
Record Job := {
  Type_ : string;
  TemplateSchema : Schema
}.

Definition GetTemplateSchema (cfg : Job) : Schema := TemplateSchema cfg.

(** The interface [schema.DataProvider]. *)
Record DataProvider := {
  GetSingleItem : PState -> Item * PState;
  GetBatch : Z -> PState -> list Item * PState;
  GetFilter : PState -> Filter * PState
}.

(** The interface [database.Client]. *)
Record Client := {
  InsertOne : Item -> CState -> (bool * error) * CState;
  InsertMany : list Item -> CState -> (bool * error) * CState;
  ReadOne : Filter -> CState -> (bool * error) * CState;
  UpdateOne : Filter -> Item -> CState -> (bool * error) * CState
}.

Variable NewDataProvider : Schema -> DataProvider.

(** Every method call that crosses one of the two interfaces is
    logged, with its arguments. *)
Inductive call :=
| CallGetSingleItem
| CallGetBatch (n : Z)
| CallGetFilter
| CallInsertOne (i : Item)
| CallInsertMany (l : list Item)
| CallReadOne (f : Filter)
| CallUpdateOne (f : Filter) (i : Item).

Definition is_provider_call (c : call) : bool :=
  match c with
  | CallGetSingleItem | CallGetBatch _ | CallGetFilter => true
  | _ => false
  end.

Definition is_client_call (c : call) : bool := negb (is_provider_call c).

Record World := {
  pstate : PState;
  cstate : CState;
  calls : list call
}.

(** State monad over the world. *)
Definition M (A : Type) : Type := World -> A * World.

Definition ret {A} (a : A) : M A := fun w => (a, w).

Definition bind {A B} (m : M A) (k : A -> M B) : M B :=
  fun w => let (a, w') := m w in k a w'.

Notation "'let*' x ':=' m 'in' k" := (bind m (fun x => k))
  (at level 10, x name, m at level 100, k at level 200).

Definition ask_provider {A} (c : call) (f : PState -> A * PState) : M A :=
  fun w =>
    let (a, p') := f (pstate w) in
    (a, {| pstate := p'; cstate := cstate w; calls := calls w ++ [c] |}).

Definition ask_client {A} (c : call) (f : CState -> A * CState) : M A :=
  fun w =>
    let (a, c') := f (cstate w) in
    (a, {| pstate := pstate w; cstate := c'; calls := calls w ++ [c] |}).

Record BaseHandler := {
  client : Client;
  provider : DataProvider
}.

(** The interface [JobHandler] with its four implementations. *)
Inductive JobHandler :=
| WriteHandler (h : BaseHandler)
| BulkWriteHandler (h : BaseHandler)
| ReadHandler (h : BaseHandler)
| UpdateHandler (h : BaseHandler).

(** The handler kinds, without their fields. *)
Inductive variant := VWrite | VBulkWrite | VRead | VUpdate.

Definition variant_of (j : JobHandler) : variant :=
  match j with
  | WriteHandler _ => VWrite
  | BulkWriteHandler _ => VBulkWrite
  | ReadHandler _ => VRead
  | UpdateHandler _ => VUpdate
  end.

(** [NewJobHandler]: the switch tries its cases from top to bottom. *)
Definition NewJobHandler (cfg : Job) (cl : Client) : outcome JobHandler :=
  let handler :=
    {| client := cl; provider := NewDataProvider (GetTemplateSchema cfg) |} in
  if String.eqb (Type_ cfg) Write then Returned (WriteHandler handler)
  else if String.eqb (Type_ cfg) Read then Returned (ReadHandler handler)
  else if String.eqb (Type_ cfg) Update then Returned (UpdateHandler handler)
  else if String.eqb (Type_ cfg) BulkWrite then
    Returned (BulkWriteHandler handler)
  else Panicked (String.append "Invalid job type: " (Type_ cfg)).

(** [Handle]: Go evaluates the calls in an argument list from left to
    right, before the call they are arguments of. *)
Definition Handle (j : JobHandler) : M (bool * error) :=
  match j with
  | WriteHandler h =>
      let* i := ask_provider CallGetSingleItem (GetSingleItem (provider h)) in
      ask_client (CallInsertOne i) (InsertOne (client h) i)
  | BulkWriteHandler h =>
      let* l := ask_provider (CallGetBatch 100) (GetBatch (provider h) 100) in
      ask_client (CallInsertMany l) (InsertMany (client h) l)
  | ReadHandler h =>
      let* f := ask_provider CallGetFilter (GetFilter (provider h)) in
      ask_client (CallReadOne f) (ReadOne (client h) f)
  | UpdateHandler h =>
      let* f := ask_provider CallGetFilter (GetFilter (provider h)) in
      let* i := ask_provider CallGetSingleItem (GetSingleItem (provider h)) in
      ask_client (CallUpdateOne f i) (UpdateOne (client h) f i)
  end.

(** The calls one [Handle] adds to the log. *)
Definition calls_of (j : JobHandler) (w : World) : list call :=
  drop (length (calls w)) (calls (snd (Handle j w))).

Definition provider_calls (j : JobHandler) (w : World) : nat :=
  length (List.filter is_provider_call (calls_of j w)).

Definition client_calls (j : JobHandler) (w : World) : nat :=
  length (List.filter is_client_call (calls_of j w)).

(** The job types the switch knows. *)
Definition known_type (t : string) : bool :=
  String.eqb t Write || String.eqb t Read
  || String.eqb t Update || String.eqb t BulkWrite.

(** The kind of handler a construction yields, if it yields one. *)
Definition built (o : outcome JobHandler) : option variant :=
  match o with
  | Returned j => Some (variant_of j)
  | Panicked _ => None
  end.

End Handlers.

Arguments Type_ {Schema} _.
Arguments TemplateSchema {Schema} _.
Arguments GetTemplateSchema {Schema} cfg.
Arguments GetSingleItem {Item Filter PState} _ _.
Arguments GetBatch {Item Filter PState} _ _ _.
Arguments GetFilter {Item Filter PState} _ _.
Arguments InsertOne {Item Filter CState} _ _ _.
Arguments InsertMany {Item Filter CState} _ _ _.
Arguments ReadOne {Item Filter CState} _ _ _.
Arguments UpdateOne {Item Filter CState} _ _ _ _.
Arguments CallGetSingleItem {Item Filter}.
Arguments CallGetBatch {Item Filter} n.
Arguments CallGetFilter {Item Filter}.
Arguments CallInsertOne {Item Filter} i.
Arguments CallInsertMany {Item Filter} l.
Arguments CallReadOne {Item Filter} f.
Arguments CallUpdateOne {Item Filter} f i.
Arguments is_provider_call {Item Filter} c.
Arguments is_client_call {Item Filter} c.
Arguments pstate {Item Filter PState CState} _.
Arguments cstate {Item Filter PState CState} _.
Arguments calls {Item Filter PState CState} _.
Arguments client {Item Filter PState CState} _.
Arguments provider {Item Filter PState CState} _.
Arguments WriteHandler {Item Filter PState CState} h.
Arguments BulkWriteHandler {Item Filter PState CState} h.
Arguments ReadHandler {Item Filter PState CState} h.
Arguments UpdateHandler {Item Filter PState CState} h.
Arguments variant_of {Item Filter PState CState} j.
Arguments NewJobHandler {Item Filter Schema PState CState}
Write Read Update BulkWrite NewDataProvider cfg cl.
Arguments Handle {Item Filter PState CState} j _.
Arguments calls_of {Item Filter PState CState} j w.
Arguments provider_calls {Item Filter PState CState} j w.
Arguments client_calls {Item Filter PState CState} j w.
Arguments built {Item Filter PState CState} o.

End Driver.

(* ================================================================== *)
(** ** Package worker: the job pool *)
(* ================================================================== *)

Module Worker.

(** Modelled from the spec: the three termination policies of a job
    pool (package [worker] is not part of the sources at hand). *)
Inductive Policy :=
| Unbounded
| DurationBounded (started duration : Z)
| CountBounded.

(** Modelled from the spec: the state of a [JobPool]: its policy, the
    remaining-operations counter of a count-bounded pool, the
    completed-operations counter (both [uint64]) and the cancellation
    flag. *)
Record JobPool := {
  policy : Policy;
  remaining : Z;
  requestsDone : Z;
  cancelled : bool
}.

(** Modelled from the spec: [NewNoLimitTimerJobPool], the unbounded
    pool. *)
Definition NewNoLimitTimerJobPool : JobPool :=
  {| policy := Unbounded; remaining := 0; requestsDone := 0;
     cancelled := false |}.

(** Modelled from the spec: [NewTimerJobPool], the duration-bounded
    pool; [now] is the clock at creation. *)
Definition NewTimerJobPool (now duration : Z) : JobPool :=
  {| policy := DurationBounded now duration; remaining := 0;
     requestsDone := 0; cancelled := false |}.

(** Modelled from the spec: [NewDeductionJobPool], the count-bounded
    pool with [k] operations to hand out. *)
Definition NewDeductionJobPool (k : Z) : JobPool :=
  {| policy := CountBounded; remaining := k; requestsDone := 0;
     cancelled := false |}.

(** Modelled from the spec: [SpawnJob], one atomic step.  Unbounded:
    true unless cancelled.  Duration-bounded: true while
    [now - start < duration] and not cancelled.  Count-bounded: the
    counter is decremented unless it is zero already, and the answer
    is true iff the value before was positive and the pool is not
    cancelled. *)
Definition SpawnJob (now : Z) (p : JobPool) : bool * JobPool :=
  match policy p with
  | Unbounded => (negb (cancelled p), p)
  | DurationBounded started duration =>
      (negb (cancelled p) && (now - started <? duration), p)
  | CountBounded =>
      if 0 <? remaining p then
        (negb (cancelled p),
         {| policy := policy p; remaining := remaining p - 1;
            requestsDone := requestsDone p; cancelled := cancelled p |})
      else (false, p)
  end.

(** Modelled from the spec: [MarkJobDone] atomically increments the
    completed-operations counter, a [uint64]. *)
Definition MarkJobDone (p : JobPool) : JobPool :=
  {| policy := policy p; remaining := remaining p;
     requestsDone := (requestsDone p + 1) mod 2 ^ 64;
     cancelled := cancelled p |}.

(** Modelled from the spec: [Cancel] sets the flag; calling it again
    changes nothing. *)
Definition Cancel (p : JobPool) : JobPool :=
  {| policy := policy p; remaining := remaining p;
     requestsDone := requestsDone p; cancelled := true |}.

(** Modelled from the spec: [GetRequestsDone] reads the completed
    count. *)
Definition GetRequestsDone (p : JobPool) : Z := requestsDone p.

End Worker.

(* ================================================================== *)
(** ** Package mongoload: the engine *)
(* ================================================================== *)

Module Mongoload.

Import Worker.

(** Conversions between Go's 64-bit integers, and to [int32]. *)
Definition to_int64 (z : Z) : Z := (z + 2 ^ 63) mod 2 ^ 64 - 2 ^ 63.
Definition to_uint64 (z : Z) : Z := z mod 2 ^ 64.
Definition to_int32 (z : Z) : Z := (z + 2 ^ 31) mod 2 ^ 32 - 2 ^ 31.

(** The two limiters of package [rps]; only their constructors are
    used by the engine. *)
Inductive Limiter :=
| NewNoLimitLimiter
| NewSimpleLimiter (rateLimit : Z).

(** [database.DbClient]: the batch size it reports.  What
    [InsertOneOrMany] answers is decided by the environment. *)
Record DbClient := {
  GetBatchSize : Z
}.

(** [sync.WaitGroup.Add] on the counter.  The counter is the upper
    half of a 64-bit word, read as an [int32]: the sum wraps around at
    32 bits, and a counter that comes out negative panics.  The other
    panics of [Add] need a positive [delta] while a goroutine waits;
    here the only positive [delta] is that of [New], before any
    [Wait]. *)
Definition wgAdd (delta counter : Z) : outcome Z :=
  let v := to_int32 (counter + delta) in
  if v <? 0 then Panicked "sync: negative WaitGroup counter"
  else Returned v.

(** The struct [mongoload]; [wg] is the counter of the wait group,
    [start] and [duration] are in nanoseconds. *)
Record mongoload := {
  db : DbClient;
  wg : Z;
  concurrentConnections : Z;
  rateLimit : Z;
  operationsAmount : Z;
  start : Z;
  duration : Z;
  rateLimiter : Limiter;
  pool : JobPool
}.

Definition set_pool (p : JobPool) (l : mongoload) : mongoload :=
  {| db := db l; wg := wg l;
     concurrentConnections := concurrentConnections l;
     rateLimit := rateLimit l; operationsAmount := operationsAmount l;
     start := start l; duration := duration l;
     rateLimiter := rateLimiter l; pool := p |}.

Definition set_wg (c : Z) (l : mongoload) : mongoload :=
  {| db := db l; wg := c;
     concurrentConnections := concurrentConnections l;
     rateLimit := rateLimit l; operationsAmount := operationsAmount l;
     start := start l; duration := duration l;
     rateLimiter := rateLimiter l; pool := pool l |}.

Definition set_start (t : Z) (l : mongoload) : mongoload :=
  {| db := db l; wg := wg l;
     concurrentConnections := concurrentConnections l;
     rateLimit := rateLimit l; operationsAmount := operationsAmount l;
     start := t; duration := duration l;
     rateLimiter := rateLimiter l; pool := pool l |}.

(** [New].  The fields of the fresh struct are zero until assigned;
    [now] is the clock the timer pool reads when it is created. *)
Definition New (now : Z) (ops conns rateLimit duration : Z)
    (database : DbClient) : outcome (mongoload * error) :=
  let '(load_duration, load_operationsAmount, load_pool) :=
    if (duration =? 0) && (ops =? 0) then
      (0, 0, NewNoLimitTimerJobPool)
    else if negb (duration =? 0) then
      (duration, 0, NewTimerJobPool now duration)
    else
      (0, to_int64 ops, NewDeductionJobPool (to_uint64 (to_int64 ops))) in
  let load_rateLimiter :=
    if rateLimit =? 0 then NewNoLimitLimiter
    else NewSimpleLimiter rateLimit in
  let conns := if conns =? 0 then 100 else conns in
  match wgAdd conns 0 with
  | Panicked msg => Panicked msg
  | Returned counter =>
      Returned
        ({| db := database; wg := counter;
            concurrentConnections := conns;
            rateLimit := rateLimit;
            operationsAmount := load_operationsAmount;
            start := 0; duration := load_duration;
            rateLimiter := load_rateLimiter; pool := load_pool |},
         None)
  end.

(** [cancel]. *)
Definition cancel (l : mongoload) : mongoload :=
  set_pool (Cancel (pool l)) l.

(** [performSingleOperation]: the error of the database call is
    dropped, the success flag is returned. *)
Definition performSingleOperation (answer : bool * error) : bool :=
  let '(writedSuccessfuly, _) := answer in writedSuccessfuly.

(** *** The goroutines of a run *)

(** Where a worker is in [worker]. *)
Inductive wpc :=
| WSpawnJob       (* at the loop condition *)
| WTake
| WOperation
| WMarkJobDone
| WDone           (* loop left, the deferred [wg.Done] pending *)
| WExited.

(** Where the caller is in [Torment]. *)
Inductive mpc :=
| MNotify
| MSpawn (i : Z)
| MStart
| MWait
| MSince
| MStats (elapsed : Z)
| MReturned.

(** Where the interrupt goroutine of [Torment] is. *)
Inductive gpc :=
| GNotStarted
| GReceive
| GCancel
| GExited.

(** [float64(num) / elapsed.Seconds()], kept unevaluated. *)
Record ratio := {
  num : Z;
  over : Z
}.

(** The four figures [Torment] prints. *)
Record Stats := {
  elapsed : Z;
  requests : Z;
  rps : ratio;
  ops : ratio
}.

(** What happened, in order; [w] is the index of a worker. *)
Inductive event :=
| EvGo (w : nat)
| EvSpawnJob (w : nat) (granted : bool)
| EvTake (w : nat)
| EvOperation (w : nat) (ok : bool) (err : error)
| EvMarkJobDone (w : nat)
| EvWgDone (w : nat)
| EvSignal (kept : bool)
| EvCancel.

Record runtime := {
  ml : mongoload;
  main : mpc;
  workers : list wpc;
  handler : gpc;
  notified : bool;
  interruptChan : Z;      (* signals in the buffer, capacity 1 *)
  summary : option Stats;
  crashed : option string;
  trace : list event
}.

Definition init (l : mongoload) : runtime :=
  {| ml := l; main := MNotify; workers := []; handler := GNotStarted;
     notified := false; interruptChan := 0; summary := None;
     crashed := None; trace := [] |}.

Definition with_ml (l : mongoload) (s : runtime) : runtime :=
  {| ml := l; main := main s; workers := workers s; handler := handler s;
     notified := notified s; interruptChan := interruptChan s;
     summary := summary s; crashed := crashed s; trace := trace s |}.

Definition with_main (m : mpc) (s : runtime) : runtime :=
  {| ml := ml s; main := m; workers := workers s; handler := handler s;
     notified := notified s; interruptChan := interruptChan s;
     summary := summary s; crashed := crashed s; trace := trace s |}.

Definition with_workers (ws : list wpc) (s : runtime) : runtime :=
  {| ml := ml s; main := main s; workers := ws; handler := handler s;
     notified := notified s; interruptChan := interruptChan s;
     summary := summary s; crashed := crashed s; trace := trace s |}.

Definition with_handler (g : gpc) (s : runtime) : runtime :=
  {| ml := ml s; main := main s; workers := workers s; handler := g;
     notified := notified s; interruptChan := interruptChan s;
     summary := summary s; crashed := crashed s; trace := trace s |}.

Definition with_notified (b : bool) (s : runtime) : runtime :=
  {| ml := ml s; main := main s; workers := workers s;
     handler := handler s; notified := b;
     interruptChan := interruptChan s;
     summary := summary s; crashed := crashed s; trace := trace s |}.

Definition with_interruptChan (n : Z) (s : runtime) : runtime :=
  {| ml := ml s; main := main s; workers := workers s;
     handler := handler s; notified := notified s; interruptChan := n;
     summary := summary s; crashed := crashed s; trace := trace s |}.

Definition with_summary (r : option Stats) (s : runtime) : runtime :=
  {| ml := ml s; main := main s; workers := workers s;
     handler := handler s; notified := notified s;
     interruptChan := interruptChan s;
     summary := r; crashed := crashed s; trace := trace s |}.

Definition panic (msg : string) (s : runtime) : runtime :=
  {| ml := ml s; main := main s; workers := workers s;
     handler := handler s; notified := notified s;
     interruptChan := interruptChan s;
     summary := summary s; crashed := Some msg; trace := trace s |}.

Definition log (e : event) (s : runtime) : runtime :=
  {| ml := ml s; main := main s; workers := workers s;
     handler := handler s; notified := notified s;
     interruptChan := interruptChan s;
     summary := summary s; crashed := crashed s;
     trace := trace s ++ [e] |}.

Definition goto (w : nat) (pc : wpc) (s : runtime) : runtime :=
  with_workers (<[w := pc]> (workers s)) s.

(** [worker]: one step of worker [w].  [now] is the clock the pool
    may read, [answer] what [InsertOneOrMany] returns if this step is
    the database call.  The rate limiter decides when a worker in
    [Take] goes on, not whether; that is left to the schedule. *)
Definition worker (w : nat) (now : Z) (answer : bool * error)
    (s : runtime) : runtime :=
  match workers s !! w with
  | None => s
  | Some WSpawnJob =>
      let '(granted, p) := SpawnJob now (pool (ml s)) in
      log (EvSpawnJob w granted)
        (goto w (if granted then WTake else WDone)
           (with_ml (set_pool p (ml s)) s))
  | Some WTake =>
      log (EvTake w) (goto w WOperation s)
  | Some WOperation =>
      let _ := performSingleOperation answer in
      log (EvOperation w (fst answer) (snd answer)) (goto w WMarkJobDone s)
  | Some WMarkJobDone =>
      log (EvMarkJobDone w)
        (goto w WSpawnJob
           (with_ml (set_pool (MarkJobDone (pool (ml s))) (ml s)) s))
  | Some WDone =>
      match wgAdd (-1) (wg (ml s)) with
      | Panicked msg => panic msg s
      | Returned counter =>
          log (EvWgDone w)
            (goto w WExited (with_ml (set_wg counter (ml s)) s))
      end
  | Some WExited => s
  end.

(** [Torment]: one step of the calling goroutine. *)
Definition Torment (now : Z) (s : runtime) : runtime :=
  match main s with
  | MNotify =>
      with_main (MSpawn 0) (with_handler GReceive (with_notified true s))
  | MSpawn i =>
      if i <? concurrentConnections (ml s) then
        log (EvGo (length (workers s)))
          (with_main (MSpawn (i + 1))
             (with_workers (workers s ++ [WSpawnJob]) s))
      else with_main MStart s
  | MStart =>
      with_main MWait (with_ml (set_start now (ml s)) s)
  | MWait =>
      if wg (ml s) =? 0 then with_main MSince s else s
  | MSince =>
      with_main (MStats (now - start (ml s))) s
  | MStats elapsed =>
      let requestsDone := GetRequestsDone (pool (ml s)) in
      let rps := {| num := requestsDone; over := elapsed |} in
      let ops :=
        {| num := to_uint64 (requestsDone * GetBatchSize (db (ml s)));
           over := elapsed |} in
      with_main MReturned
        (with_summary
           (Some {| elapsed := elapsed; requests := requestsDone;
                    rps := rps; ops := ops |}) s)
  | MReturned => s
  end.

(** An interrupt reaches the process.  [signal.Notify] never blocks:
    a signal that finds the buffer full is dropped.  An interrupt that
    comes before [signal.Notify] is not the program's to handle: the Go
    runtime ends the process, and there is no run to speak of; such a
    step leaves the state as it is and is not counted as a signal. *)
Definition interrupt (s : runtime) : runtime :=
  if notified s then
    if interruptChan s <? 1 then
      log (EvSignal true) (with_interruptChan (interruptChan s + 1) s)
    else log (EvSignal false) s
  else s.

(** The goroutine [Torment] starts for the interrupt: one receive,
    one [cancel]. *)
Definition on_interrupt (s : runtime) : runtime :=
  match handler s with
  | GReceive =>
      if 0 <? interruptChan s then
        with_handler GCancel (with_interruptChan (interruptChan s - 1) s)
      else s
  | GCancel =>
      log EvCancel (with_handler GExited (with_ml (cancel (ml s)) s))
  | GNotStarted | GExited => s
  end.

(** The moves of the scheduler and of the environment. *)
Inductive action :=
| Main (now : Z)
| Work (w : nat) (now : Z) (ok : bool) (err : error)
| Signal
| Handler.

(** One step; after a panic nothing runs. *)
Definition step (s : runtime) (a : action) : runtime :=
  match crashed s with
  | Some _ => s
  | None =>
      match a with
      | Main now => Torment now s
      | Work w now ok err => worker w now (ok, err) s
      | Signal => interrupt s
      | Handler => on_interrupt s
      end
  end.

Definition run (sched : list action) (s : runtime) : runtime :=
  fold_left step sched s.

(** *** Reading a trace *)

(** What one worker does, seen from that worker. *)
Inductive wevent :=
| SpawnJobE (granted : bool)
| TakeE
| OperationE (ok : bool) (err : error)
| MarkJobDoneE
| WgDoneE.

Definition of_worker (w : nat) (e : event) : option wevent :=
  match e with
  | EvSpawnJob v b => if Nat.eqb v w then Some (SpawnJobE b) else None
  | EvTake v => if Nat.eqb v w then Some TakeE else None
  | EvOperation v ok err =>
      if Nat.eqb v w then Some (OperationE ok err) else None
  | EvMarkJobDone v => if Nat.eqb v w then Some MarkJobDoneE else None
  | EvWgDone v => if Nat.eqb v w then Some WgDoneE else None
  | EvGo _ | EvSignal _ | EvCancel => None
  end.

Definition wtrace (w : nat) (t : list event) : list wevent :=
  omap (of_worker w) t.

(** One full turn of the loop, with the answer of the database. *)
Definition iteration (answer : bool * error) : list wevent :=
  [SpawnJobE true; TakeE; OperationE (fst answer) (snd answer);
   MarkJobDoneE].

(** The events of the turn a worker is in the middle of. *)
Definition pending (pc : wpc) (answer : bool * error) : list wevent :=
  match pc with
  | WSpawnJob => []
  | WTake => [SpawnJobE true]
  | WOperation => [SpawnJobE true; TakeE]
  | WMarkJobDone =>
      [SpawnJobE true; TakeE; OperationE (fst answer) (snd answer)]
  | WDone => [SpawnJobE false]
  | WExited => [SpawnJobE false; WgDoneE]
  end.

Definition count_events (f : event -> bool) (t : list event) : Z :=
  Z.of_nat (length (List.filter f t)).

Definition is_granted (e : event) : bool :=
  match e with EvSpawnJob _ true => true | _ => false end.

Definition is_cancel (e : event) : bool :=
  match e with EvCancel => true | _ => false end.

Definition is_signal (e : event) : bool :=
  match e with EvSignal _ => true | _ => false end.

Definition is_go (e : event) : bool :=
  match e with EvGo _ => true | _ => false end.

Definition is_mark (e : event) : bool :=
  match e with EvMarkJobDone _ => true | _ => false end.

(** Classes of program points of a worker. *)
Definition is_exited (pc : wpc) : bool :=
  match pc with WExited => true | _ => false end.

(** A worker that has left the loop. *)
Definition has_left (pc : wpc) : bool :=
  match pc with WDone | WExited => true | _ => false end.

(** A worker between a granted [SpawnJob] and its [MarkJobDone]. *)
Definition in_flight (pc : wpc) : bool :=
  match pc with WTake | WOperation | WMarkJobDone => true | _ => false end.

Definition count_pc (f : wpc -> bool) (ws : list wpc) : Z :=
  Z.of_nat (length (List.filter f ws)).

Definition all_exited (s : runtime) : bool := forallb is_exited (workers s).

(** [wg.Wait] has returned. *)
Definition waited (s : runtime) : bool :=
  match main s with
  | MSince | MStats _ | MReturned => true
  | _ => false
  end.

(** The loop that starts the workers is over. *)
Definition started (s : runtime) : bool :=
  match main s with
  | MNotify | MSpawn _ => false
  | _ => true
  end.

(** Everything of a state but the trace: what the program itself
    holds. *)
Definition program_state : Type :=
  (mongoload * mpc * list wpc * gpc * bool * Z * option Stats
   * option string)%type.

Definition held (s : runtime) : program_state :=
  (ml s, main s, workers s, handler s, notified s, interruptChan s,
   summary s, crashed s).

(** The same schedule with other answers of the database. *)
Definition answering (f : nat -> bool * error) (a : action) : action :=
  match a with
  | Work w now _ _ => Work w now (fst (f w)) (snd (f w))
  | _ => a
  end.

(** *** Invariants of a run *)

(** The events of a worker are full turns of the loop followed by the
    turn it is in; a worker not yet started has no events. *)
Definition loop_shaped (s : runtime) : Prop :=
  forall w,
    match workers s !! w with
    | Some pc =>
        exists answers last,
          wtrace w (trace s) = flat_map iteration answers ++ pending pc last
    | None => wtrace w (trace s) = []
    end.

(** The configuration a run was started with stays. *)
Definition configured (l : mongoload) (s : runtime) : Prop :=
  db (ml s) = db l
  /\ concurrentConnections (ml s) = concurrentConnections l.

(** The wait group counts the workers that have not exited, started or
    not; nothing has panicked; [Torment] starts one worker per turn of
    its loop and passes [wg.Wait] only at zero. *)
Definition joined (s : runtime) : Prop :=
  let n := Z.of_nat (length (workers s)) in
  let c := concurrentConnections (ml s) in
  crashed s = None
  /\ wg (ml s) = c - count_pc is_exited (workers s)
  /\ n <= c
  /\ n = count_events is_go (trace s)
  /\ match main s with
     | MNotify => n = 0
     | MSpawn i => n = i
     | MStart | MWait => n = c
     | MSince | MStats _ | MReturned => n = c /\ wg (ml s) = 0
     end.

(** The same books for any configured number, fitting the counter of
    the wait group or not: the counter holds that number wrapped to 32
    bits, less the workers that have exited; [Torment] starts no worker
    when the number is negative; and when something has panicked, a
    worker that was started has not exited. *)
Definition counted (s : runtime) : Prop :=
  let n := Z.of_nat (length (workers s)) in
  let c := concurrentConnections (ml s) in
  let x := count_pc is_exited (workers s) in
  0 <= wg (ml s)
  /\ wg (ml s) = to_int32 c - x
  /\ n <= Z.max 0 c
  /\ n = count_events is_go (trace s)
  /\ match main s with
     | MNotify => n = 0
     | MSpawn i => n = i
     | _ => n = Z.max 0 c
     end
  /\ (crashed s <> None -> x < n).

(** The steps of the schedule that are [Torment]'s. *)
Definition is_main (a : action) : bool :=
  match a with Main _ => true | _ => false end.

(** The steps [Torment] has still to take before its loop is over. *)
Definition turns_left (s : runtime) : Z :=
  match main s with
  | MNotify => Z.max 0 (concurrentConnections (ml s)) + 2
  | MSpawn i => Z.max 0 (concurrentConnections (ml s) - i) + 1
  | _ => 0
  end.

(** The pool is cancelled exactly when the interrupt goroutine has
    made its call of [cancel]. *)
Definition cancel_flagged (s : runtime) : Prop :=
  cancelled (pool (ml s))
  = match handler s with GExited => true | _ => false end.

(** The interrupt goroutine calls [cancel] once, when it ends; it goes
    on only after a signal, and a signal that came while it was waiting
    is in the buffer. *)
Definition interrupt_handled (s : runtime) : Prop :=
  let signals := count_events is_signal (trace s) in
  count_events is_cancel (trace s)
  = match handler s with GExited => 1 | _ => 0 end
  /\ 0 <= interruptChan s <= 1
  /\ match handler s with
     | GNotStarted =>
         main s = MNotify /\ notified s = false /\ signals = 0
         /\ interruptChan s = 0
     | GReceive =>
         main s <> MNotify /\ notified s = true
         /\ (1 <= signals <-> interruptChan s = 1)
     | GCancel | GExited =>
         main s <> MNotify /\ notified s = true /\ 1 <= signals
     end.

(** The completed counter counts the calls of [MarkJobDone]. *)
Definition done_counted (s : runtime) : Prop :=
  requestsDone (pool (ml s))
  = count_events is_mark (trace s) mod 2 ^ 64.

(** The books of a count-bounded pool that started with [k]. *)
Definition count_bounded (k : Z) (s : runtime) : Prop :=
  let p := pool (ml s) in
  let granted := count_events is_granted (trace s) in
  policy p = CountBounded
  /\ 0 <= remaining p
  /\ remaining p + granted <= k
  /\ granted
     = count_events is_mark (trace s) + count_pc in_flight (workers s)
  /\ (cancelled p = false ->
      remaining p + granted = k
      /\ (0 < count_pc has_left (workers s) -> remaining p = 0)).



(** The number of operations and of completions of one worker. *)
Definition is_operationE (e : wevent) : bool :=
  match e with OperationE _ _ => true | _ => false end.

Definition is_markE (e : wevent) : bool :=
  match e with MarkJobDoneE => true | _ => false end.

Definition operations_of (w : nat) (t : list event) : nat :=
  length (List.filter is_operationE (wtrace w t)).

Definition completions_of (w : nat) (t : list event) : nat :=
  length (List.filter is_markE (wtrace w t)).

End Mongoload.

(* ================================================================== *)
(** ** Concrete instances, for the examples *)
(* ================================================================== *)

Module Demo.

Import Driver.

(** A provider that numbers what it hands out, and a client that
    accepts everything and counts its calls. *)
Definition counting_provider : DataProvider nat nat nat :=
  {| GetSingleItem := fun n => (n, S n);
     GetBatch := fun k n => (repeat n (Z.to_nat k), S n);
     GetFilter := fun n => (n, S n) |}.

Definition accepting_client : Client nat nat nat :=
  {| InsertOne := fun _ c => ((true, None), S c);
     InsertMany := fun _ c => ((true, None), S c);
     ReadOne := fun _ c => ((true, None), S c);
     UpdateOne := fun _ _ c => ((true, None), S c) |}.

Definition demo_base : BaseHandler nat nat nat nat :=
  Build_BaseHandler _ _ _ _ accepting_client counting_provider.

Definition demo_world : World nat nat nat nat :=
  {| pstate := 0%nat; cstate := 0%nat; calls := [] |}.

Definition demo_job (t : string) : Job unit :=
  {| Type_ := t; TemplateSchema := tt |}.

Definition demo_db : Mongoload.DbClient :=
  {| Mongoload.GetBatchSize := 1 |}.

Import Mongoload.

(** What [New 0 1 1 0 0 demo_db] builds: one worker, one operation. *)
Definition one_worker : mongoload :=
  {| db := demo_db; wg := 1; concurrentConnections := 1; rateLimit := 0;
     operationsAmount := 1; start := 0; duration := 0;
     rateLimiter := NewNoLimitLimiter;
     pool := Worker.NewDeductionJobPool 1 |}.

(** What [New 0 3 2 0 0 demo_db] builds: two workers, three
    operations. *)
Definition two_workers : mongoload :=
  {| db := demo_db; wg := 2; concurrentConnections := 2; rateLimit := 0;
     operationsAmount := 3; start := 0; duration := 0;
     rateLimiter := NewNoLimitLimiter;
     pool := Worker.NewDeductionJobPool 3 |}.

(** A whole run of [one_worker]; the database answers [(ok, err)]. *)
Definition single_run (ok : bool) (err : error) : list action :=
  [Main 0; Main 0]
  ++ repeat (Work 0 0 ok err) 6
  ++ [Main 0; Main 10; Main 10; Main 50; Main 50].

(** A whole run of [two_workers], the workers taking turns; the second
    operation fails. *)
Definition shared_run : list action :=
  let W w := Work w 0 true None in
  [Main 0; Main 0; W 0%nat; Main 0; W 1%nat;
   W 0%nat; W 0%nat; W 1%nat; Work 1 0 false (Some "timeout"%string);
   W 0%nat; W 0%nat; W 1%nat; W 1%nat; W 1%nat;
   W 0%nat; W 0%nat; W 0%nat; W 0%nat; W 0%nat;
   Main 0; Main 10; Main 10; Main 50; Main 50].

(** Three interrupts in a row, right after [signal.Notify]. *)
Definition interrupted_run : list action :=
  [Main 0; Signal; Signal; Signal].

(** [Torment] gets four turns, among an interrupt and the first step
    of a worker. *)
Definition starting_run : list action :=
  [Main 0; Signal; Main 0; Work 0 0 true None; Main 0; Main 0].

End Demo.

(* ================================================================== *)
(** ** Package lbot: running the jobs of a configuration *)
(* ================================================================== *)

Module Lbot.

Section Bot.

(** [context.Context], [config.Schema], [config.Job], [schema.DataPool]
    and [driver.Worker] belong to other packages; of a schema only its
    name is read here, of a job only the name of its schema. *)
Variables (Context SchemaT JobT DataPool Worker : Type).
Variable Name : SchemaT -> string.
Variable Schema : JobT -> string.

(** [config.Config], as far as [Run] reads it. *)
Record Config := {
  Schemas : list SchemaT;
  Jobs : list JobT
}.

Variable NewDataPool : SchemaT -> DataPool.

(** [driver.NewWorker]: the worker and the error it returns.  A job
    without a pool gets [None], the nil of the map. *)
Variable NewWorker :
  Context -> Config -> JobT -> option DataPool -> Worker * error.

(** The struct [Lbot]; [config] is a pointer, nil until [SetConfig]. *)
Record Lbot := {
  ctx : Context;
  config : option Config;
  workers : list Worker
}.

(** Calls that leave the package, in order. *)
Inductive call :=
| CallNewDataPool (sh : SchemaT)
| CallNewWorker (job : JobT) (dataPool : option DataPool)
| CallInitIntervalReportingSummary (w : Worker)
| CallWork (w : Worker)
| CallSummary (w : Worker)
| CallExtendCopySavedFieldsToDataPool (w : Worker)
| CallClose (w : Worker)
| CallCancel (w : Worker).

(** The bot together with the calls made so far. *)
Record machine := {
  bot : Lbot;
  calls : list call
}.

(** How a method ends: it returns, or it panics, leaving the bot as it
    is at that point. *)
Inductive ending :=
| Done (m : machine)
| Panic (msg : string) (m : machine).

Definition record (c : call) (m : machine) : machine :=
  {| bot := bot m; calls := calls m ++ [c] |}.

Definition append_worker (w : Worker) (m : machine) : machine :=
  {| bot := {| ctx := ctx (bot m); config := config (bot m);
               workers := workers (bot m) ++ [w] |};
     calls := calls m |}.

(** [NewLbot]. *)
Definition NewLbot (c : Context) : Lbot :=
  {| ctx := c; config := None; workers := [] |}.

(** [SetConfig]; the argument is a pointer and may be nil. *)
Definition SetConfig (cfg : option Config) (l : Lbot) : Lbot :=
  {| ctx := ctx l; config := cfg; workers := workers l |}.

(** The first loop of [Run]: one pool per schema, under its name. *)
Definition init_datapools (schemas : list SchemaT)
    (start : gmap string DataPool * machine)
    : gmap string DataPool * machine :=
  fold_left
    (fun '(dataPools, m) sh =>
       (<[Name sh := NewDataPool sh]> dataPools,
        record (CallNewDataPool sh) m))
    schemas start.

(** The body of the second loop of [Run], a function literal called on
    the spot: [Close] is deferred only after the check of the error, so
    that it runs when the literal returns and not when it panics. *)
Definition run_job (cfg : Config) (dataPools : gmap string DataPool)
    (job : JobT) (m : machine) : ending :=
  let dataPool := dataPools !! Schema job in
  let '(worker, err) := NewWorker (ctx (bot m)) cfg job dataPool in
  let m := append_worker worker (record (CallNewWorker job dataPool) m) in
  match err with
  | Some _ => Panic "Worker initialization error" m
  | None =>
      let m := record (CallInitIntervalReportingSummary worker) m in
      let m := record (CallWork worker) m in
      let m := record (CallSummary worker) m in
      let m := record (CallExtendCopySavedFieldsToDataPool worker) m in
      Done (record (CallClose worker) m)
  end.

Fixpoint run_jobs (cfg : Config) (dataPools : gmap string DataPool)
    (jobs : list JobT) (m : machine) : ending :=
  match jobs with
  | [] => Done m
  | job :: rest =>
      match run_job cfg dataPools job m with
      | Done m' => run_jobs cfg dataPools rest m'
      | Panic msg m' => Panic msg m'
      end
  end.

(** [Run].  Reading [l.config.Schemas] through a nil pointer panics. *)
Definition Run (m : machine) : ending :=
  match config (bot m) with
  | None =>
      Panic "runtime error: invalid memory address or nil pointer dereference"
        m
  | Some cfg =>
      let '(dataPools, m) := init_datapools (Schemas cfg) (∅, m) in
      run_jobs cfg dataPools (Jobs cfg) m
  end.

(** [Cancel]: every worker is cancelled, the list is dropped, the
    error is nil. *)
Definition Cancel (m : machine) : machine * error :=
  let m' := fold_left (fun m w => record (CallCancel w) m)
              (workers (bot m)) m in
  ({| bot := {| ctx := ctx (bot m'); config := config (bot m');
                workers := [] |};
      calls := calls m' |},
   None).

(** *** What [Run] is expected to do for one job *)

(** The pool a job is given: that of the last schema of the
    configuration that bears the name the job asks for. *)
Definition pool_of (schemas : list SchemaT) (job : JobT) : option DataPool :=
  NewDataPool
    <$> last (List.filter (fun sh => String.eqb (Name sh) (Schema job))
                schemas).

Definition worker_of (c : Context) (cfg : Config) (job : JobT) : Worker :=
  fst (NewWorker c cfg job (pool_of (Schemas cfg) job)).

Definition fails (c : Context) (cfg : Config) (job : JobT) : bool :=
  match snd (NewWorker c cfg job (pool_of (Schemas cfg) job)) with
  | Some _ => true
  | None => false
  end.

(** The calls of a job whose worker could be made. *)
Definition cycle (c : Context) (cfg : Config) (job : JobT) : list call :=
  let w := worker_of c cfg job in
  [CallNewWorker job (pool_of (Schemas cfg) job);
   CallInitIntervalReportingSummary w; CallWork w; CallSummary w;
   CallExtendCopySavedFieldsToDataPool w; CallClose w].

Definition machine_of (e : ending) : machine :=
  match e with Done m | Panic _ m => m end.

Definition panicked (e : ending) : option string :=
  match e with Done _ => None | Panic msg _ => Some msg end.

End Bot.

Arguments Schemas {SchemaT JobT} _.
Arguments Jobs {SchemaT JobT} _.
Arguments ctx {Context SchemaT JobT Worker} _.
Arguments config {Context SchemaT JobT Worker} _.
Arguments workers {Context SchemaT JobT Worker} _.
Arguments CallNewDataPool {SchemaT JobT DataPool Worker} sh.
Arguments CallNewWorker {SchemaT JobT DataPool Worker} job dataPool.
Arguments CallInitIntervalReportingSummary {SchemaT JobT DataPool Worker} w.
Arguments CallWork {SchemaT JobT DataPool Worker} w.
Arguments CallSummary {SchemaT JobT DataPool Worker} w.
Arguments CallExtendCopySavedFieldsToDataPool
  {SchemaT JobT DataPool Worker} w.
Arguments CallClose {SchemaT JobT DataPool Worker} w.
Arguments CallCancel {SchemaT JobT DataPool Worker} w.
Arguments bot {Context SchemaT JobT DataPool Worker} _.
Arguments calls {Context SchemaT JobT DataPool Worker} _.
Arguments Done {Context SchemaT JobT DataPool Worker} m.
Arguments Panic {Context SchemaT JobT DataPool Worker} msg m.
Arguments record {Context SchemaT JobT DataPool Worker} c m.
Arguments append_worker {Context SchemaT JobT DataPool Worker} w m.
Arguments NewLbot {Context SchemaT JobT Worker} c.
Arguments SetConfig {Context SchemaT JobT Worker} cfg l.
Arguments init_datapools {Context SchemaT JobT DataPool Worker}
  Name NewDataPool schemas start.
Arguments run_job {Context SchemaT JobT DataPool Worker}
  Schema NewWorker cfg dataPools job m.
Arguments run_jobs {Context SchemaT JobT DataPool Worker}
  Schema NewWorker cfg dataPools jobs m.
Arguments Run {Context SchemaT JobT DataPool Worker}
  Name Schema NewDataPool NewWorker m.
Arguments Cancel {Context SchemaT JobT DataPool Worker} m.
Arguments pool_of {SchemaT JobT DataPool} Name Schema NewDataPool schemas job.
Arguments worker_of {Context SchemaT JobT DataPool Worker}
  Name Schema NewDataPool NewWorker c cfg job.
Arguments fails {Context SchemaT JobT DataPool Worker}
  Name Schema NewDataPool NewWorker c cfg job.
Arguments cycle {Context SchemaT JobT DataPool Worker}
  Name Schema NewDataPool NewWorker c cfg job.
Arguments machine_of {Context SchemaT JobT DataPool Worker} e.
Arguments panicked {Context SchemaT JobT DataPool Worker} e.

End Lbot.

(** A configuration to try the bot on: schemas are a name and a
    number, the pool of a schema is its number, a job is the name of its
    schema and whether its worker can be made, and a worker is known by
    the name of its job's schema. *)
Module LbotDemo.

Definition demo_new_worker (c : unit) (cfg : Lbot.Config (string * nat) (string * bool))
    (job : string * bool) (dataPool : option nat) : string * error :=
  (fst job, if snd job then None else Some "no connection"%string).

Definition demo_config : Lbot.Config (string * nat) (string * bool) :=
  {| Lbot.Schemas := [("users", 1%nat); ("orders", 2%nat); ("users", 3%nat)]%string;
     Lbot.Jobs := [("users", true); ("orders", true)]%string |}.

Definition failing_config : Lbot.Config (string * nat) (string * bool) :=
  {| Lbot.Schemas := [("users", 1%nat)]%string;
     Lbot.Jobs := [("users", true); ("orders", false); ("users", true)]%string |}.

Definition demo_machine (cfg : Lbot.Config (string * nat) (string * bool))
    : Lbot.machine unit (string * nat) (string * bool) nat string :=
  {| Lbot.bot := Lbot.SetConfig (Some cfg) (Lbot.NewLbot tt);
     Lbot.calls := [] |}.

End LbotDemo.

(* ================================================================== *)
(** ** Package proto: the configuration service *)
(* ================================================================== *)

Module Proto.

(** The status codes of gRPC met here. *)
Inductive Code := Unknown | Unimplemented | Internal | Unavailable.

(** An error: one made by [status.Errorf], or any other. *)
Inductive rpc_error :=
| Status (code : Code) (desc : string)
| Plain (msg : string).

Definition ConfigService_SetConfig_FullMethodName : string :=
  "/proto.ConfigService/SetConfig".
Definition ConfigService_GetConfig_FullMethodName : string :=
  "/proto.ConfigService/GetConfig".

Section ConfigService.

(** [context.Context], the two messages of package [proto] and
    [grpc.CallOption]; [zero_request] and [zero_response] are what
    [new] makes. *)
Variables (Ctx ConfigRequest ConfigResponse CallOption : Type).
Variable zero_request : ConfigRequest.
Variable zero_response : ConfigResponse.

(** A value of type [interface{}] that holds a message.  A
    [*ConfigResponse] may be a nil pointer inside a non-nil
    interface. *)
Inductive message :=
| MsgConfigRequest (r : ConfigRequest)
| MsgEmpty
| MsgConfigResponse (r : option ConfigResponse)
| MsgOther.

(** [grpc.ClientConnInterface]: [Invoke] gets the reply to fill and
    gives it back together with its error. *)
Record ClientConnInterface := {
  Invoke : Ctx -> string -> message -> ConfigResponse -> list CallOption
           -> ConfigResponse * option rpc_error
}.

(** The methods of [configServiceClient]. *)
Definition Client_SetConfig (cc : ClientConnInterface) (c : Ctx)
    (req : ConfigRequest) (opts : list CallOption)
    : option ConfigResponse * option rpc_error :=
  let '(out, err) :=
    Invoke cc c ConfigService_SetConfig_FullMethodName
      (MsgConfigRequest req) zero_response opts in
  match err with
  | Some e => (None, Some e)
  | None => (Some out, None)
  end.

Definition Client_GetConfig (cc : ClientConnInterface) (c : Ctx)
    (opts : list CallOption) : option ConfigResponse * option rpc_error :=
  let '(out, err) :=
    Invoke cc c ConfigService_GetConfig_FullMethodName MsgEmpty
      zero_response opts in
  match err with
  | Some e => (None, Some e)
  | None => (Some out, None)
  end.

(** The interface [ConfigServiceServer]. *)
Record ConfigServiceServer := {
  SetConfig : Ctx -> ConfigRequest -> option ConfigResponse * option rpc_error;
  GetConfig : Ctx -> option ConfigResponse * option rpc_error
}.

Definition UnimplementedConfigServiceServer : ConfigServiceServer :=
  {| SetConfig := fun _ _ =>
       (None, Some (Status Unimplemented "method SetConfig not implemented"));
     GetConfig := fun _ =>
       (None, Some (Status Unimplemented "method GetConfig not implemented"))
  |}.

(** The [srv interface{}] a handler is given: a value that implements
    [ConfigServiceServer], or one that does not. *)
Inductive service :=
| Implements (s : ConfigServiceServer)
| NotAServer.

Record UnaryServerInfo := {
  Server : service;
  FullMethod : string
}.

(** What a handler returns: [(interface{}, error)]. *)
Definition reply : Type := option message * option rpc_error.

Definition UnaryHandler : Type := Ctx -> message -> outcome reply.

Definition UnaryServerInterceptor : Type :=
  Ctx -> message -> UnaryServerInfo -> UnaryHandler -> outcome reply.

(** The call of the server's [SetConfig] with the two type assertions
    it goes through: the one on [srv] comes first, then the one on
    [req]; either panics when it fails. *)
Definition call_SetConfig (srv : service) (c : Ctx) (req : message)
    : outcome reply :=
  match srv with
  | NotAServer => Panicked "interface conversion: not a ConfigServiceServer"
  | Implements s =>
      match req with
      | MsgConfigRequest r =>
          let '(resp, err) := SetConfig s c r in
          Returned (Some (MsgConfigResponse resp), err)
      | _ => Panicked "interface conversion: not a *ConfigRequest"
      end
  end.

Definition call_GetConfig (srv : service) (c : Ctx) (req : message)
    : outcome reply :=
  match srv with
  | NotAServer => Panicked "interface conversion: not a ConfigServiceServer"
  | Implements s =>
      match req with
      | MsgEmpty =>
          let '(resp, err) := GetConfig s c in
          Returned (Some (MsgConfigResponse resp), err)
      | _ => Panicked "interface conversion: not a *emptypb.Empty"
      end
  end.

(** [_ConfigService_SetConfig_Handler]; [dec] fills the request. *)
Definition ConfigService_SetConfig_Handler (srv : service) (c : Ctx)
    (dec : ConfigRequest -> ConfigRequest * option rpc_error)
    (interceptor : option UnaryServerInterceptor) : outcome reply :=
  let '(req, err) := dec zero_request in
  match err with
  | Some e => Returned (None, Some e)
  | None =>
      match interceptor with
      | None => call_SetConfig srv c (MsgConfigRequest req)
      | Some intercept =>
          let info :=
            {| Server := srv;
               FullMethod := ConfigService_SetConfig_FullMethodName |} in
          let handler := fun c' req' => call_SetConfig srv c' req' in
          intercept c (MsgConfigRequest req) info handler
      end
  end.

(** [_ConfigService_GetConfig_Handler]; the request is empty, [dec]
    can only fail or not. *)
Definition ConfigService_GetConfig_Handler (srv : service) (c : Ctx)
    (dec : option rpc_error)
    (interceptor : option UnaryServerInterceptor) : outcome reply :=
  match dec with
  | Some e => Returned (None, Some e)
  | None =>
      match interceptor with
      | None => call_GetConfig srv c MsgEmpty
      | Some intercept =>
          let info :=
            {| Server := srv;
               FullMethod := ConfigService_GetConfig_FullMethodName |} in
          let handler := fun c' req' => call_GetConfig srv c' req' in
          intercept c MsgEmpty info handler
      end
  end.

(** An interceptor that does nothing but call the handler it is
    given. *)
Definition passes_on (intercept : UnaryServerInterceptor) : Prop :=
  forall c req info handler, intercept c req info handler = handler c req.

End ConfigService.

Arguments MsgConfigRequest {ConfigRequest ConfigResponse} r.
Arguments MsgEmpty {ConfigRequest ConfigResponse}.
Arguments MsgConfigResponse {ConfigRequest ConfigResponse} r.
Arguments MsgOther {ConfigRequest ConfigResponse}.
Arguments Invoke {Ctx ConfigRequest ConfigResponse CallOption} _ _ _ _ _ _.
Arguments Client_SetConfig {Ctx ConfigRequest ConfigResponse CallOption}
  zero_response cc c req opts.
Arguments Client_GetConfig {Ctx ConfigRequest ConfigResponse CallOption}
  zero_response cc c opts.
Arguments SetConfig {Ctx ConfigRequest ConfigResponse} _ _ _.
Arguments GetConfig {Ctx ConfigRequest ConfigResponse} _ _.
Arguments Implements {Ctx ConfigRequest ConfigResponse} s.
Arguments NotAServer {Ctx ConfigRequest ConfigResponse}.
Arguments Server {Ctx ConfigRequest ConfigResponse} _.
Arguments FullMethod {Ctx ConfigRequest ConfigResponse} _.
Arguments call_SetConfig {Ctx ConfigRequest ConfigResponse} srv c req.
Arguments call_GetConfig {Ctx ConfigRequest ConfigResponse} srv c req.
Arguments ConfigService_SetConfig_Handler {Ctx ConfigRequest ConfigResponse}
  zero_request srv c dec interceptor.
Arguments ConfigService_GetConfig_Handler {Ctx ConfigRequest ConfigResponse}
  srv c dec interceptor.
Arguments passes_on {Ctx ConfigRequest ConfigResponse} intercept.

End Proto.

(* ================================================================== *)
(** ** Package cli: the config command *)
(* ================================================================== *)

Module Cli.

Definition ConfigFile : string := "config-file".
Definition StdIn : string := "stdin".

Section ConfigCommand.

(** [lbot.ConfigRequest]; the parsers return a pointer, nil or not,
    and an error. *)
Variable ConfigRequest : Type.
Variable ParseStdInConfig : option ConfigRequest * error.
Variable ParseConfigFile : string -> option ConfigRequest * error.

(** [workload.SetConfigWorkload] on the connection of the process. *)
Variable SetConfigWorkload : option ConfigRequest -> error.

Inductive call :=
| CallParseStdInConfig
| CallParseConfigFile (path : string)
| CallSetConfigWorkload (cfg : option ConfigRequest).

(** The [RunE] of the config command, on the values of its two flags:
    the calls it makes and the error it returns. *)
Definition configRunE (configFile : string) (stdin : bool)
    : list call * error :=
  if String.eqb configFile "" && negb stdin then
    ([],
     Some (String.append "You need to provide configuration from either "
             (String.append ConfigFile (String.append " or " StdIn))))
  else
    let '(calls, parsedConfig, err) :=
      if stdin then
        ([CallParseStdInConfig], fst ParseStdInConfig, snd ParseStdInConfig)
      else ([], None, None) in
    match err with
    | Some e => (calls, Some e)
    | None =>
        let '(calls, parsedConfig, err) :=
          if negb (String.eqb configFile "") then
            (calls ++ [CallParseConfigFile configFile],
             fst (ParseConfigFile configFile),
             snd (ParseConfigFile configFile))
          else (calls, parsedConfig, None) in
        match err with
        | Some e => (calls, Some e)
        | None =>
            (calls ++ [CallSetConfigWorkload parsedConfig],
             SetConfigWorkload parsedConfig)
        end
    end.

Definition is_send (c : call) : bool :=
  match c with CallSetConfigWorkload _ => true | _ => false end.

End ConfigCommand.

Arguments CallParseStdInConfig {ConfigRequest}.
Arguments CallParseConfigFile {ConfigRequest} path.
Arguments CallSetConfigWorkload {ConfigRequest} cfg.
Arguments configRunE {ConfigRequest}
  ParseStdInConfig ParseConfigFile SetConfigWorkload configFile stdin.
Arguments is_send {ConfigRequest} c.

End Cli.

(* ================================================================== *)
(** ** Package resourcemanager: the Helm manager *)
(* ================================================================== *)

Module ResourceManager.

Section Helm.

(** Charts, cluster clients, Helm values and releases belong to other
    packages. *)
Variables (Chart ClusterClient Values Release : Type).

Record ResourceManagerConfig := {
  KubeconfigPath : string;
  Context : string;
  Namespace : string;
  HelmTimeout : Z
}.

(** [proto.InstallRequest], as far as [Install] reads it. *)
Record InstallRequest := {
  RequestNamespace : string
}.

(** The fields [Install] sets on the installer of package [action]. *)
Record Installer := {
  InstallerNamespace : string;
  ReleaseName : string;
  Timeout : Z
}.

(** What the world outside answers. *)
Record World := {
  LoadArchive : option Chart * error;
  GetClusterClient : string -> string -> option ClusterClient * error;
  Getenv : string -> string;
  Init : ClusterClient -> string -> string -> error;
  MergeValues : list string -> option Values * error;
  RunInstall : Installer -> option Chart -> option Values
               -> option Release * error
}.

Inductive call :=
| CallLoadArchive
| CallGetClusterClient (kubeconfig context : string)
| CallGetenv (name : string)
| CallInit (client : ClusterClient) (namespace driver : string)
| CallMergeValues (values : list string)
| CallRun (installer : Installer) (chart : option Chart)
    (vals : option Values).

(** The struct [HelmManager]; its chart and client are pointers. *)
Record HelmManager := {
  cfg : ResourceManagerConfig;
  chart : option Chart;
  clusterClient : option ClusterClient
}.

(** [NewHelmManager]. *)
Definition NewHelmManager (w : World) (config : ResourceManagerConfig)
    : list call * (option HelmManager * error) :=
  let '(loaded, err) := LoadArchive w in
  match err with
  | Some e => ([CallLoadArchive], (None, Some e))
  | None =>
      let '(client, err) :=
        GetClusterClient w (KubeconfigPath config) (Context config) in
      let calls :=
        [CallLoadArchive;
         CallGetClusterClient (KubeconfigPath config) (Context config)] in
      match err with
      | Some e => (calls, (None, Some e))
      | None =>
          (calls,
           (Some {| cfg := config; chart := loaded;
                    clusterClient := client |},
            None))
      end
  end.

(** [Install].  Reading the getter of a nil cluster client panics,
    before anything else is called; what [Init] returns is not looked
    at. *)
Definition Install (w : World) (c : HelmManager) (request : InstallRequest)
    : list call * outcome error :=
  match clusterClient c with
  | None =>
      ([],
       Panicked
         "runtime error: invalid memory address or nil pointer dereference")
  | Some client =>
      let driver := Getenv w "HELM_DRIVER" in
      let _ := Init w client (Namespace (cfg c)) driver in
      let installer :=
        {| InstallerNamespace := RequestNamespace request;
           ReleaseName := "dummy-release-name";
           Timeout := HelmTimeout (cfg c) |} in
      let values := ["workload.name=dummy-workload-name"%string] in
      let calls :=
        [CallGetenv "HELM_DRIVER";
         CallInit client (Namespace (cfg c)) driver;
         CallMergeValues values] in
      let '(vals, err) := MergeValues w values in
      match err with
      | Some e => (calls, Returned (Some e))
      | None =>
          let calls := calls ++ [CallRun installer (chart c) vals] in
          match snd (RunInstall w installer (chart c) vals) with
          | Some e =>
              (calls,
               Returned
                 (Some (String.append "failed to install helm chart: " e)))
          | None => (calls, Returned None)
          end
      end
  end.

(** [UnInstall] and [Upgrade]. *)
Definition UnInstall (c : HelmManager) : list call * error := ([], None).
Definition Upgrade (c : HelmManager) : list call * error := ([], None).

Definition is_run (c : call) : bool :=
  match c with CallRun _ _ _ => true | _ => false end.

(** The same world with another answer of [Init]. *)
Definition with_Init (f : ClusterClient -> string -> string -> error)
    (w : World) : World :=
  {| LoadArchive := LoadArchive w; GetClusterClient := GetClusterClient w;
     Getenv := Getenv w; Init := f; MergeValues := MergeValues w;
     RunInstall := RunInstall w |}.

End Helm.

Arguments LoadArchive {Chart ClusterClient Values Release} _.
Arguments GetClusterClient {Chart ClusterClient Values Release} _ _ _.
Arguments Getenv {Chart ClusterClient Values Release} _ _.
Arguments Init {Chart ClusterClient Values Release} _ _ _ _.
Arguments MergeValues {Chart ClusterClient Values Release} _ _.
Arguments RunInstall {Chart ClusterClient Values Release} _ _ _ _.
Arguments CallLoadArchive {Chart ClusterClient Values}.
Arguments CallGetClusterClient {Chart ClusterClient Values} kubeconfig context.
Arguments CallGetenv {Chart ClusterClient Values} name.
Arguments CallInit {Chart ClusterClient Values} client namespace driver.
Arguments CallMergeValues {Chart ClusterClient Values} values.
Arguments CallRun {Chart ClusterClient Values} installer chart vals.
Arguments cfg {Chart ClusterClient} _.
Arguments chart {Chart ClusterClient} _.
Arguments clusterClient {Chart ClusterClient} _.
Arguments NewHelmManager {Chart ClusterClient Values Release} w config.
Arguments Install {Chart ClusterClient Values Release} w c request.
Arguments UnInstall {Chart ClusterClient Values} c.
Arguments Upgrade {Chart ClusterClient Values} c.
Arguments is_run {Chart ClusterClient Values} c.
Arguments with_Init {Chart ClusterClient Values Release} f w.

End ResourceManager.

(* ================================================================== *)
(** ** More on the handlers, and instances for the examples *)
(* ================================================================== *)

Module DriverMore.

Import Driver.

Section Rebuild.

Variables (Item Filter PState CState : Type).

(** The base a handler embeds. *)
Definition base_of (j : JobHandler Item Filter PState CState)
    : BaseHandler Item Filter PState CState :=
  match j with
  | WriteHandler h | BulkWriteHandler h | ReadHandler h | UpdateHandler h => h
  end.

(** The same kind of handler over the same provider, with another
    client. *)
Definition with_client (cl : Client Item Filter CState)
    (j : JobHandler Item Filter PState CState)
    : JobHandler Item Filter PState CState :=
  let h := Build_BaseHandler _ _ _ _ cl (provider (base_of j)) in
  match j with
  | WriteHandler _ => WriteHandler h
  | BulkWriteHandler _ => BulkWriteHandler h
  | ReadHandler _ => ReadHandler h
  | UpdateHandler _ => UpdateHandler h
  end.

(** The same world with another state of the database. *)
Definition with_cstate (c : CState) (w : World Item Filter PState CState)
    : World Item Filter PState CState :=
  {| pstate := pstate w; cstate := c; calls := calls w |}.

End Rebuild.

Arguments base_of {Item Filter PState CState} j.
Arguments with_client {Item Filter PState CState} cl j.
Arguments with_cstate {Item Filter PState CState} c w.


End DriverMore.

Module MoreDemo.

(** A server that stores the last request and answers with it. *)
Definition echo_server : Proto.ConfigServiceServer unit nat nat :=
  {| Proto.SetConfig := fun _ r => (Some r, None);
     Proto.GetConfig := fun _ => (Some 0%nat, None) |}.

Definition failing_dec (r : nat) : nat * option Proto.rpc_error :=
  (r, Some (Proto.Plain "malformed")).

Definition good_dec (r : nat) : nat * option Proto.rpc_error :=
  (7%nat, None).

Definition plain_interceptor
    : Proto.UnaryServerInterceptor unit nat nat :=
  fun c req info handler => handler c req.

(** Parsers of the config command: stdin holds configuration 1, every
    file configuration 2, and the agent accepts what it is sent. *)
Definition stdin_parser : option nat * error := (Some 1%nat, None).
Definition file_parser (path : string) : option nat * error :=
  (Some 2%nat, None).
Definition agent_accepts (cfg : option nat) : error := None.

(** A world in which the chart loads, the cluster answers, the values
    merge, and Helm fails to install. *)
Definition helm_world : ResourceManager.World nat nat nat nat :=
  {| ResourceManager.LoadArchive := (Some 1%nat, None);
     ResourceManager.GetClusterClient := fun _ _ => (Some 2%nat, None);
     ResourceManager.Getenv := fun _ => ""%string;
     ResourceManager.Init := fun _ _ _ => Some "no cluster"%string;
     ResourceManager.MergeValues := fun _ => (Some 3%nat, None);
     ResourceManager.RunInstall :=
       fun _ _ _ => (None, Some "timed out"%string) |}.

(** A world in which the chart does not load. *)
Definition chartless_world : ResourceManager.World nat nat nat nat :=
  {| ResourceManager.LoadArchive := (None, Some "bad archive"%string);
     ResourceManager.GetClusterClient := fun _ _ => (Some 2%nat, None);
     ResourceManager.Getenv := fun _ => ""%string;
     ResourceManager.Init := fun _ _ _ => None;
     ResourceManager.MergeValues := fun _ => (Some 3%nat, None);
     ResourceManager.RunInstall := fun _ _ _ => (Some 4%nat, None) |}.

Definition helm_config : ResourceManager.ResourceManagerConfig :=
  {| ResourceManager.KubeconfigPath := "~/.kube/config";
     ResourceManager.Context := "test";
     ResourceManager.Namespace := "agents";
     ResourceManager.HelmTimeout := 60 |}.

Definition helm_manager : ResourceManager.HelmManager nat nat :=
  {| ResourceManager.cfg := helm_config;
     ResourceManager.chart := Some 1%nat;
     ResourceManager.clusterClient := Some 2%nat |}.

Definition helm_request : ResourceManager.InstallRequest :=
  {| ResourceManager.RequestNamespace := "workloads" |}.

(** A run of [Demo.one_worker] that stops with [Torment] in [wg.Wait]
    and the worker in the middle of its first turn. *)
Definition waiting_run : list Mongoload.action :=
  [Mongoload.Main 0; Mongoload.Main 0; Mongoload.Work 0 0 true None;
   Mongoload.Main 0; Mongoload.Main 5].

End MoreDemo.

(* ================================================================== *)
(** ** The job handlers *)
(* ================================================================== *)

Section HandlerFacts.

Import Driver.

Context {Item Filter Schema PState CState : Type}.
Context (Write Read Update BulkWrite : string).
Context (NewDataProvider : Schema -> DataProvider Item Filter PState).

Local Abbreviation JobHandler := (JobHandler Item Filter PState CState).
Local Abbreviation World := (World Item Filter PState CState).
Local Abbreviation NewJobHandler :=
  (NewJobHandler Write Read Update BulkWrite NewDataProvider).

Lemma calls_of_app (j : JobHandler) (w : World) (l : list (call Item Filter)) :
  calls (snd (Handle j w)) = calls w ++ l -> calls_of j w = l.
Proof.
  unfold calls_of. intros ->. by rewrite drop_app_length.
Qed.

Lemma returns_known (cfg : Job Schema) (cl : Client Item Filter CState) :
  returns (NewJobHandler cfg cl)
  = known_type Write Read Update BulkWrite (Type_ cfg).
Proof.
  unfold Driver.NewJobHandler, known_type.
  repeat (destruct (String.eqb _ _); simpl; try reflexivity).
Qed.

Lemma eqb_other (a b : string) : a <> b -> String.eqb a b = false.
Proof. intros H. by apply String.eqb_neq. Qed.

(** C5.  Which handler [NewJobHandler] builds is decided by the job
    type alone, when the handler is constructed: with four distinct type
    constants, each of them yields its own handler over the given
    client and a fresh provider; every other type makes the constructor
    panic with the message naming the type; two configurations with the
    same type yield the same kind of handler, or both panic.  A panic
    can arise in the constructor only: it returns exactly for the known
    types, and [Handle], defined by cases on the four handlers, has no
    case left in which to fail at dispatch. *)
Theorem NewJobHandler_by_type
    (cfg : Job Schema) (cl : Client Item Filter CState) :
  NoDup [Write; Read; Update; BulkWrite] ->
  let h := Build_BaseHandler _ _ _ _ cl
             (NewDataProvider (GetTemplateSchema cfg)) in
  (Type_ cfg = Write -> NewJobHandler cfg cl = Returned (WriteHandler h))
  /\ (Type_ cfg = Read -> NewJobHandler cfg cl = Returned (ReadHandler h))
  /\ (Type_ cfg = Update ->
      NewJobHandler cfg cl = Returned (UpdateHandler h))
  /\ (Type_ cfg = BulkWrite ->
      NewJobHandler cfg cl = Returned (BulkWriteHandler h))
  /\ (~ In (Type_ cfg) [Write; Read; Update; BulkWrite] ->
      NewJobHandler cfg cl
      = Panicked (String.append "Invalid job type: " (Type_ cfg)))
  /\ (forall (cfg' : Job Schema) (cl' : Client Item Filter CState),
        Type_ cfg' = Type_ cfg ->
        built (NewJobHandler cfg' cl') = built (NewJobHandler cfg cl))
  /\ returns (NewJobHandler cfg cl)
     = known_type Write Read Update BulkWrite (Type_ cfg).
Proof.
  intros Hnd h.
  apply NoDup_cons in Hnd as [Hw Hnd].
  apply NoDup_cons in Hnd as [Hr Hnd].
  apply NoDup_cons in Hnd as [Hu _].
  assert (Write <> Read /\ Write <> Update /\ Write <> BulkWrite
          /\ Read <> Update /\ Read <> BulkWrite /\ Update <> BulkWrite)
    as (wr & wu & wb & ru & rb & ub).
  { repeat split; intros E; rewrite E in *; set_solver. }
  unfold Driver.NewJobHandler. fold h.
  repeat split.
  - intros ->. by rewrite String.eqb_refl.
  - intros ->. rewrite (eqb_other Read Write) by congruence.
    by rewrite String.eqb_refl.
  - intros ->. rewrite (eqb_other Update Write) by congruence.
    rewrite (eqb_other Update Read) by congruence.
    by rewrite String.eqb_refl.
  - intros ->. rewrite (eqb_other BulkWrite Write) by congruence.
    rewrite (eqb_other BulkWrite Read) by congruence.
    rewrite (eqb_other BulkWrite Update) by congruence.
    by rewrite String.eqb_refl.
  - intros Hin. simpl in Hin.
    rewrite !eqb_other; [reflexivity | intros E; apply Hin; auto ..].
  - intros cfg' cl' E. rewrite E.
    repeat (destruct (String.eqb _ _); simpl; try reflexivity).
  - apply returns_known.
Qed.

(** C6 (as the code has it).  What one [Handle] asks of its two
    collaborators, in order.  The write handler asks the provider for
    one item and hands it to [InsertOne]; the bulk handler asks for a
    batch of 100, a constant of the code, and hands it to [InsertMany];
    the read handler asks for a filter and hands it to [ReadOne]; the
    update handler asks the provider twice, first for a filter, then
    for an item, and hands both to [UpdateOne].  So each handler calls
    the client once, and the provider once, except the update handler,
    which calls it twice. *)
Theorem Handle_calls (j : JobHandler) (w : World) :
  calls_of j w
  = match j with
    | WriteHandler h =>
        [CallGetSingleItem;
         CallInsertOne (fst (GetSingleItem (provider h) (pstate w)))]
    | BulkWriteHandler h =>
        [CallGetBatch 100;
         CallInsertMany (fst (GetBatch (provider h) 100 (pstate w)))]
    | ReadHandler h =>
        [CallGetFilter;
         CallReadOne (fst (GetFilter (provider h) (pstate w)))]
    | UpdateHandler h =>
        let fp := GetFilter (provider h) (pstate w) in
        [CallGetFilter; CallGetSingleItem;
         CallUpdateOne (fst fp)
           (fst (GetSingleItem (provider h) (snd fp)))]
    end
  /\ client_calls j w = 1%nat
  /\ provider_calls j w
     = match j with UpdateHandler _ => 2%nat | _ => 1%nat end.
Proof.
  assert (calls_of j w
  = match j with
    | WriteHandler h =>
        [CallGetSingleItem;
         CallInsertOne (fst (GetSingleItem (provider h) (pstate w)))]
    | BulkWriteHandler h =>
        [CallGetBatch 100;
         CallInsertMany (fst (GetBatch (provider h) 100 (pstate w)))]
    | ReadHandler h =>
        [CallGetFilter;
         CallReadOne (fst (GetFilter (provider h) (pstate w)))]
    | UpdateHandler h =>
        let fp := GetFilter (provider h) (pstate w) in
        [CallGetFilter; CallGetSingleItem;
         CallUpdateOne (fst fp)
           (fst (GetSingleItem (provider h) (snd fp)))]
    end) as Hcalls.
  { apply calls_of_app.
    destruct j as [h|h|h|h]; unfold Handle, bind, ask_provider, ask_client;
      cbn [pstate cstate calls].
    - destruct (GetSingleItem _ _) as [i p]; cbn.
      destruct (InsertOne _ _ _) as [r c]; cbn. by rewrite <- app_assoc.
    - destruct (GetBatch _ _ _) as [l p]; cbn.
      destruct (InsertMany _ _ _) as [r c]; cbn. by rewrite <- app_assoc.
    - destruct (GetFilter _ _) as [f p]; cbn.
      destruct (ReadOne _ _ _) as [r c]; cbn. by rewrite <- app_assoc.
    - destruct (GetFilter _ _) as [f p]; cbn.
      destruct (GetSingleItem _ _) as [i p']; cbn.
      destruct (UpdateOne _ _ _ _) as [r c]; cbn.
      by rewrite <- !app_assoc. }
  split; [exact Hcalls|].
  unfold client_calls, provider_calls. rewrite Hcalls.
  destruct j; split; reflexivity.
Qed.

End HandlerFacts.

(** C5, on the constants ["write"], ["read"], ["update"] and
    ["bulk_write"]: a read job gets the read handler. *)
Lemma NewJobHandler_by_type_witness :
  NoDup ["write"; "read"; "update"; "bulk_write"]%string
  /\ Driver.NewJobHandler "write" "read" "update" "bulk_write"
       (fun _ : unit => Demo.counting_provider)
       (Demo.demo_job "read") Demo.accepting_client
     = Returned (Driver.ReadHandler Demo.demo_base).
Proof.
  assert (NoDup ["write"; "read"; "update"; "bulk_write"]%string) as H.
  { repeat (apply NoDup_cons_2;
              [rewrite ?elem_of_cons, elem_of_nil; intuition discriminate|]).
    apply NoDup_nil_2. }
  split; [exact H|].
  destruct (NewJobHandler_by_type "write" "read" "update" "bulk_write"
              (fun _ : unit => Demo.counting_provider)
              (Demo.demo_job "read") Demo.accepting_client H)
    as (_ & Hread & _).
  apply Hread. reflexivity.
Defined.

(** C6, against the claim: the update handler calls the provider
    twice, not once. *)
Lemma update_asks_provider_twice :
  Driver.provider_calls (Driver.UpdateHandler Demo.demo_base)
    Demo.demo_world <> 1%nat.
Proof. vm_compute. discriminate. Qed.

(* ================================================================== *)
(** ** The engine *)
(* ================================================================== *)

Section EngineFacts.

Import Worker Mongoload.

(** *** The constructor *)

Lemma to_uint64_to_int64 (z : Z) : to_uint64 (to_int64 z) = z mod 2 ^ 64.
Proof.
  unfold to_uint64, to_int64.
  rewrite Zminus_mod_idemp_l.
  f_equal. lia.
Qed.

Lemma to_int32_small (z : Z) :
  - 2 ^ 31 <= z < 2 ^ 31 -> to_int32 z = z.
Proof.
  intros Hz. unfold to_int32. rewrite Z.mod_small; lia.
Qed.

Lemma to_int32_range (z : Z) : - 2 ^ 31 <= to_int32 z < 2 ^ 31.
Proof.
  unfold to_int32. pose proof (Z.mod_pos_bound (z + 2 ^ 31) (2 ^ 32)). lia.
Qed.

Lemma to_int32_below (z : Z) : 0 <= z -> to_int32 z <= z.
Proof.
  intros Hz. unfold to_int32.
  pose proof (Z.mod_le (z + 2 ^ 31) (2 ^ 32)). lia.
Qed.

Lemma New_unfold (now ops conns rl d : Z) (database : DbClient) :
  New now ops conns rl d database
  = if to_int32 (if conns =? 0 then 100 else conns) <? 0 then
      Panicked "sync: negative WaitGroup counter"
    else Returned
           ({| db := database;
               wg := to_int32 (if conns =? 0 then 100 else conns);
               concurrentConnections := if conns =? 0 then 100 else conns;
               rateLimit := rl;
               operationsAmount := if d =? 0 then
                                     if ops =? 0 then 0 else to_int64 ops
                                   else 0;
               start := 0;
               duration := d;
               rateLimiter := if rl =? 0 then NewNoLimitLimiter
                              else NewSimpleLimiter rl;
               pool := if d =? 0 then
                         if ops =? 0 then NewNoLimitTimerJobPool
                         else NewDeductionJobPool (ops mod 2 ^ 64)
                       else NewTimerJobPool now d |},
            None).
Proof.
  unfold New, wgAdd. cbv zeta.
  rewrite to_uint64_to_int64, Z.add_0_l.
  destruct (to_int32 _ <? 0), (Z.eqb_spec d 0) as [->|Hd], (ops =? 0);
    reflexivity.
Qed.

(** What [New] leaves behind whenever it returns: a counter of the wait
    group that is the connection count wrapped to 32 bits, and a fresh
    pool. *)
Lemma New_returned_any now ops conns rl d database load err :
  New now ops conns rl d database = Returned (load, err) ->
  err = None
  /\ concurrentConnections load = (if conns =? 0 then 100 else conns)
  /\ wg load = to_int32 (concurrentConnections load)
  /\ 0 <= wg load
  /\ requestsDone (pool load) = 0
  /\ cancelled (pool load) = false.
Proof.
  rewrite New_unfold.
  destruct (Z.ltb_spec (to_int32 (if conns =? 0 then 100 else conns)) 0)
    as [Hn|Hn]; [discriminate|].
  intros [= <- <-]. cbn [concurrentConnections wg pool].
  repeat split; try done.
  - by destruct (d =? 0), (ops =? 0).
  - by destruct (d =? 0), (ops =? 0).
Qed.

(** What [New] leaves behind when it returns for a connection count
    that fits the counter of the wait group: the counter counts the
    workers to come, of which there is at least one. *)
Lemma New_returned now ops conns rl d database load err :
  New now ops conns rl d database = Returned (load, err) ->
  - 2 ^ 31 <= conns < 2 ^ 31 ->
  err = None
  /\ 0 <= conns
  /\ concurrentConnections load = (if conns =? 0 then 100 else conns)
  /\ wg load = concurrentConnections load
  /\ 1 <= concurrentConnections load < 2 ^ 31
  /\ requestsDone (pool load) = 0
  /\ cancelled (pool load) = false.
Proof.
  intros Hnew Hfit.
  destruct (New_returned_any _ _ _ _ _ _ _ _ Hnew)
    as (Herr & Hc & Hwg & Hpos & Hdone & Hcan).
  assert (- 2 ^ 31 <= concurrentConnections load < 2 ^ 31) as Hin.
  { rewrite Hc. destruct (conns =? 0); lia. }
  rewrite to_int32_small in Hwg by done.
  assert (0 <= conns) as H0.
  { rewrite Hwg, Hc in Hpos. destruct (Z.eqb_spec conns 0); lia. }
  repeat split; try done; try lia.
  rewrite Hc. destruct (Z.eqb_spec conns 0); lia.
Qed.

(** C10 (as the code has it).  [New] never returns an error: whenever
    it returns, the error is nil.  Whether it returns is decided by
    [wg.Add] on the connection count, whose counter has 32 bits: [New]
    returns exactly when the count, wrapped to an [int32], is not
    negative, and panics otherwise.  So it returns for every count from
    0 up to [2^31 - 1] and panics for every count from [-2^31] up to
    [-1]. *)
Theorem New_error_nil (now ops conns rl d : Z) (database : DbClient) :
  match New now ops conns rl d database with
  | Returned (_, err) => err = None /\ 0 <= to_int32 conns
  | Panicked msg =>
      to_int32 conns < 0
      /\ msg = "sync: negative WaitGroup counter"%string
  end
  /\ (0 <= conns < 2 ^ 31 ->
      returns (New now ops conns rl d database) = true)
  /\ (- 2 ^ 31 <= conns < 0 ->
      returns (New now ops conns rl d database) = false).
Proof.
  rewrite New_unfold.
  assert (to_int32 (if conns =? 0 then 100 else conns) < 0
          <-> to_int32 conns < 0) as Hsame.
  { destruct (Z.eqb_spec conns 0) as [->|Hc]; [|done].
    rewrite !to_int32_small; lia. }
  destruct (Z.ltb_spec (to_int32 (if conns =? 0 then 100 else conns)) 0)
    as [Hn|Hn].
  - split; [split; [tauto|done]|]. split; [|done].
    intros Hfit. apply Hsame in Hn. rewrite to_int32_small in Hn; lia.
  - split; [split; [done|lia]|]. split; [done|].
    intros Hneg.
    assert (to_int32 conns < 0) as Hx by (rewrite to_int32_small; lia).
    apply Hsame in Hx. lia.
Qed.

(** C3 (as the code has it).  [New] rejects no combination of
    termination settings.  When it returns, the error is nil and the
    pool is chosen by the duration first: a nonzero duration gives the
    timer pool, whatever the operation count, which is then not even
    stored; a zero duration gives the unbounded pool when the count is
    zero too and the count-bounded pool otherwise.  So every accepted
    configuration runs under exactly one policy, and a configuration
    naming both a duration and a count runs under the duration. *)
Theorem New_selects_policy now ops conns rl d database load err :
  New now ops conns rl d database = Returned (load, err) ->
  err = None
  /\ pool load
     = (if d =? 0 then
          if ops =? 0 then NewNoLimitTimerJobPool
          else NewDeductionJobPool (ops mod 2 ^ 64)
        else NewTimerJobPool now d)
  /\ policy (pool load)
     = (if d =? 0 then if ops =? 0 then Unbounded else CountBounded
        else DurationBounded now d)
  /\ duration load = d
  /\ operationsAmount load
     = (if d =? 0 then if ops =? 0 then 0 else to_int64 ops else 0).
Proof.
  rewrite New_unfold.
  destruct (to_int32 _ <? 0); [discriminate|].
  intros [= <- <-]. cbn [pool duration operationsAmount].
  repeat split; by destruct (d =? 0), (ops =? 0).
Qed.

End EngineFacts.

(** C10, against the claim: with a negative connection count [New]
    panics instead of returning a nil error. *)
Lemma New_negative_conns_panics :
  Mongoload.New 0 1 (-1) 0 0 Demo.demo_db
  = Panicked "sync: negative WaitGroup counter".
Proof. reflexivity. Qed.

(** C3, against the claim: 5 operations together with a duration of 10
    are accepted, and the run is bounded by the duration. *)
Lemma New_accepts_conflicting_policies :
  exists load,
    Mongoload.New 0 5 1 0 10 Demo.demo_db = Returned (load, None)
    /\ Worker.policy (Mongoload.pool load) = Worker.DurationBounded 0 10
    /\ Mongoload.operationsAmount load = 0.
Proof. eexists. repeat split. Qed.

(** C3, on a count of 5 and no duration: the count-bounded pool. *)
Lemma New_selects_policy_witness :
  exists load,
    Mongoload.New 0 5 1 0 0 Demo.demo_db = Returned (load, None)
    /\ Mongoload.pool load = Worker.NewDeductionJobPool 5.
Proof.
  eexists. split; [reflexivity|].
  destruct (New_selects_policy 0 5 1 0 0 Demo.demo_db _ None eq_refl)
    as (_ & Hpool & _).
  exact Hpool.
Defined.

(* ================================================================== *)
(** ** Runs of the engine *)
(* ================================================================== *)

Section RunFacts.

Import Worker Mongoload.

Lemma run_snoc sched a s : run (sched ++ [a]) s = step (run sched s) a.
Proof. unfold run. by rewrite fold_left_app. Qed.

Lemma run_app sched more s : run (sched ++ more) s = run more (run sched s).
Proof. unfold run. by rewrite fold_left_app. Qed.

(** Invariants: what holds at the start and is kept by every step of
    a run that has not panicked holds throughout. *)
Lemma run_invariant (P : runtime -> Prop) s0 :
  P s0 ->
  (forall s a, crashed s = None -> P s -> P (step s a)) ->
  forall sched, P (run sched s0).
Proof.
  intros H0 Hstep sched. induction sched as [|a sched IH] using rev_ind.
  - exact H0.
  - rewrite run_snoc. destruct (crashed (run sched s0)) eqn:E.
    + unfold step. by rewrite E.
    + by apply Hstep.
Qed.

(** Case analysis on a step: the goroutine that moves and where it is. *)
Tactic Notation "step_cases" constr(s) constr(a)
    "as" ident(now) ident(w0) ident(ok) ident(err) :=
  unfold step;
  match goal with H : crashed s = None |- _ => rewrite H end;
  destruct a as [now|w0 now ok err| |];
  [ unfold Torment; destruct (main s) eqn:?
  | unfold worker; destruct (workers s !! w0) as [[]|] eqn:?
  | unfold interrupt; destruct (notified s) eqn:?;
    [destruct (interruptChan s <? 1) eqn:?|]
  | unfold on_interrupt; destruct (handler s) eqn:? ].

(** Where a goroutine has not moved, recall where it is. *)
Ltac recall :=
  repeat match goal with
         | H : main ?s = _ |- context [main ?s] => rewrite H
         | H : handler ?s = _ |- context [handler ?s] => rewrite H
         end.

(** Reading a field of an updated state. *)
Ltac fields :=
  cbn [ml main workers handler notified interruptChan summary crashed trace
       with_ml with_main with_workers with_handler with_notified
       with_interruptChan with_summary panic log goto
       db wg concurrentConnections rateLimit operationsAmount start duration
       rateLimiter pool set_pool set_wg set_start cancel] in *.

Lemma wtrace_snoc w t e :
  wtrace w (t ++ [e])
  = wtrace w t ++ match of_worker w e with Some x => [x] | None => [] end.
Proof.
  unfold wtrace. rewrite omap_app. by f_equal.
Qed.

Lemma flat_map_snoc {A B} (f : A -> list B) l x :
  flat_map f (l ++ [x]) = flat_map f l ++ f x.
Proof. rewrite flat_map_app. simpl. by rewrite app_nil_r. Qed.

(** *** The loop of a worker *)

Lemma loop_shaped_moved s w0 pc0 pc1 e x :
  workers s !! w0 = Some pc0 ->
  of_worker w0 e = Some x ->
  (forall w, w <> w0 -> of_worker w e = None) ->
  (forall answers last, exists answers' last',
      (flat_map iteration answers ++ pending pc0 last) ++ [x]
      = flat_map iteration answers' ++ pending pc1 last') ->
  forall s',
    workers s' = <[w0 := pc1]> (workers s) ->
    trace s' = trace s ++ [e] ->
    loop_shaped s -> loop_shaped s'.
Proof.
  intros Hw0 He Hother Hshape s' Hws Htr Hinv w.
  rewrite Hws, Htr, wtrace_snoc.
  specialize (Hinv w).
  destruct (decide (w = w0)) as [->|Hne].
  - rewrite list_lookup_insert_eq by (by eapply lookup_lt_Some).
    rewrite Hw0 in Hinv. destruct Hinv as (answers & last & ->).
    rewrite He. apply Hshape.
  - rewrite list_lookup_insert_ne by done.
    rewrite (Hother w Hne), app_nil_r. exact Hinv.
Qed.

Lemma of_worker_other w w0 :
  w <> w0 -> Nat.eqb w0 w = false.
Proof. intros H. apply Nat.eqb_neq. congruence. Qed.

Lemma loop_shaped_step s a :
  crashed s = None -> loop_shaped s -> loop_shaped (step s a).
Proof.
  intros Hc Hinv.
  step_cases s a as now w0 ok err; try exact Hinv.
  - (* a new worker *)
    destruct (i <? concurrentConnections (ml s)); [|exact Hinv].
    intros w. specialize (Hinv w). fields.
    rewrite wtrace_snoc, app_nil_r.
    destruct (lt_eq_lt_dec w (length (workers s))) as [[Hlt| ->]|Hgt].
    + by rewrite lookup_app_l.
    + rewrite lookup_ge_None_2 in Hinv by lia.
      rewrite list_lookup_middle by done.
      exists [], (true, None). by rewrite Hinv.
    + rewrite lookup_ge_None_2 in Hinv by lia.
      rewrite lookup_ge_None_2; [done|]. rewrite length_app. simpl. lia.
  - (* Wait *)
    by destruct (wg (ml s) =? 0).
  - (* SpawnJob *)
    destruct (SpawnJob now (pool (ml s))) as [granted p].
    eapply (loop_shaped_moved s w0 WSpawnJob
              (if granted then WTake else WDone)
              (EvSpawnJob w0 granted) (SpawnJobE granted));
      [done| simpl; by rewrite Nat.eqb_refl
      | intros w Hne; simpl; by rewrite of_worker_other
      | | reflexivity | reflexivity | exact Hinv].
    intros answers last. exists answers, last.
    simpl. rewrite app_nil_r. by destruct granted.
  - (* Take *)
    eapply (loop_shaped_moved s w0 WTake WOperation (EvTake w0) TakeE);
      [done| simpl; by rewrite Nat.eqb_refl
      | intros w Hne; simpl; by rewrite of_worker_other
      | | reflexivity | reflexivity | exact Hinv].
    intros answers last. exists answers, last.
    by rewrite <- app_assoc.
  - (* the operation *)
    eapply (loop_shaped_moved s w0 WOperation WMarkJobDone
              (EvOperation w0 ok err) (OperationE ok err));
      [done| simpl; by rewrite Nat.eqb_refl
      | intros w Hne; simpl; by rewrite of_worker_other
      | | reflexivity | reflexivity | exact Hinv].
    intros answers last. exists answers, (ok, err).
    by rewrite <- app_assoc.
  - (* MarkJobDone *)
    eapply (loop_shaped_moved s w0 WMarkJobDone WSpawnJob
              (EvMarkJobDone w0) MarkJobDoneE);
      [done| simpl; by rewrite Nat.eqb_refl
      | intros w Hne; simpl; by rewrite of_worker_other
      | | reflexivity | reflexivity | exact Hinv].
    intros answers last. exists (answers ++ [last]), last.
    rewrite flat_map_snoc, <- app_assoc. simpl. by rewrite app_nil_r.
  - (* the deferred Done *)
    destruct (wgAdd (-1) (wg (ml s))) as [counter|msg]; [|exact Hinv].
    eapply (loop_shaped_moved s w0 WDone WExited (EvWgDone w0) WgDoneE);
      [done| simpl; by rewrite Nat.eqb_refl
      | intros w Hne; simpl; by rewrite of_worker_other
      | | reflexivity | reflexivity | exact Hinv].
    intros answers last. exists answers, last.
    by rewrite <- app_assoc.
  - (* a signal, kept *)
    intros w. specialize (Hinv w). fields.
    rewrite wtrace_snoc. simpl of_worker. by rewrite app_nil_r.
  - (* a signal, dropped *)
    intros w. specialize (Hinv w). fields.
    rewrite wtrace_snoc. simpl of_worker. by rewrite app_nil_r.
  - (* the receive *)
    by destruct (0 <? interruptChan s).
  - (* cancel *)
    intros w. specialize (Hinv w). fields.
    rewrite wtrace_snoc. simpl of_worker. by rewrite app_nil_r.
Qed.

(** *** Counting *)

Lemma count_events_snoc f t e :
  count_events f (t ++ [e]) = count_events f t + Z.b2z (f e).
Proof.
  unfold count_events. rewrite List.filter_app, length_app. simpl.
  destruct (f e); simpl; lia.
Qed.

Lemma count_pc_snoc f ws pc :
  count_pc f (ws ++ [pc]) = count_pc f ws + Z.b2z (f pc).
Proof.
  unfold count_pc. rewrite List.filter_app, length_app. simpl.
  destruct (f pc); simpl; lia.
Qed.

Lemma count_pc_cons f ws pc :
  count_pc f (pc :: ws) = Z.b2z (f pc) + count_pc f ws.
Proof. unfold count_pc. simpl. destruct (f pc); simpl; lia. Qed.

Lemma count_pc_insert f (ws : list wpc) w pc pc' :
  ws !! w = Some pc ->
  count_pc f (<[w := pc']> ws) = count_pc f ws - Z.b2z (f pc) + Z.b2z (f pc').
Proof.
  revert w. induction ws as [|x ws IH]; intros [|w] H; try discriminate.
  - injection H as ->. simpl. rewrite !count_pc_cons. lia.
  - simpl in H. simpl. rewrite !count_pc_cons, (IH w H). lia.
Qed.

Lemma count_pc_range f ws : 0 <= count_pc f ws <= Z.of_nat (length ws).
Proof.
  induction ws as [|x ws IH]; [unfold count_pc; simpl; lia|].
  rewrite count_pc_cons. simpl length. destruct (f x); simpl; lia.
Qed.

(** A worker outside a class keeps the class from filling the list. *)
Lemma count_pc_below f (ws : list wpc) w pc :
  ws !! w = Some pc -> f pc = false ->
  count_pc f ws <= Z.of_nat (length ws) - 1.
Proof.
  revert w. induction ws as [|x ws IH]; intros [|w] H Hf; try discriminate.
  - injection H as ->. rewrite count_pc_cons, Hf. simpl length.
    pose proof (count_pc_range f ws). simpl. lia.
  - simpl in H. rewrite count_pc_cons. simpl length.
    specialize (IH w H Hf). destruct (f x); simpl; lia.
Qed.

Lemma all_exited_full ws :
  forallb is_exited ws = true <-> count_pc is_exited ws = Z.of_nat (length ws).
Proof.
  induction ws as [|x ws IH]; [done|].
  rewrite count_pc_cons. simpl forallb. simpl length.
  pose proof (count_pc_range is_exited ws).
  destruct (is_exited x); simpl.
  - rewrite IH. lia.
  - split; [discriminate|lia].
Qed.

Lemma all_exited_classes ws :
  forallb is_exited ws = true ->
  count_pc in_flight ws = 0
  /\ count_pc has_left ws = Z.of_nat (length ws).
Proof.
  induction ws as [|x ws IH]; [done|].
  simpl forallb. rewrite andb_true_iff. intros [Hx Hws].
  destruct (IH Hws) as [Hf Hl]. rewrite !count_pc_cons, Hf, Hl.
  destruct x; try discriminate. simpl. lia.
Qed.

(** *** The wait group *)

Lemma configured_step l s a : configured l s -> configured l (step s a).
Proof.
  intros [Hdb Hc]. unfold step. destruct (crashed s); [done|].
  unfold configured.
  destruct a as [now|w now ok err| |].
  - unfold Torment. destruct (main s); fields; try done.
    + by destruct (i <? concurrentConnections (ml s)).
    + by destruct (wg (ml s) =? 0).
  - unfold worker. destruct (workers s !! w) as [[]|]; fields; try done.
    + by destruct (SpawnJob now (pool (ml s))).
    + by destruct (wgAdd (-1) (wg (ml s))).
  - unfold interrupt.
    by destruct (notified s); [destruct (interruptChan s <? 1)|].
  - unfold on_interrupt. destruct (handler s); fields; try done.
    by destruct (0 <? interruptChan s).
Qed.

Lemma configured_run l sched : configured l (run sched (init l)).
Proof.
  apply run_invariant; [done|]. intros s a _. apply configured_step.
Qed.

Lemma joined_init l :
  wg l = concurrentConnections l -> 0 <= concurrentConnections l ->
  joined (init l).
Proof.
  intros Hwg Hc. unfold joined, init, count_pc, count_events. simpl.
  repeat split; lia.
Qed.

(** Bring the counts of an updated state back to those before. *)
Ltac recount :=
  fields; recall;
  repeat match goal with
         | H : workers ?s !! ?w = Some ?pc
           |- context [count_pc ?f (<[?w := ?pc']> (workers ?s))] =>
             rewrite (count_pc_insert f (workers s) w pc pc' H)
         end;
  rewrite ?length_insert, ?length_app, ?count_events_snoc, ?count_pc_snoc;
  cbn [Z.b2z is_exited has_left in_flight is_go is_cancel is_signal
       is_granted is_mark length].

Ltac books :=
  recount; repeat split; first [done | lia | destruct (main _); lia].

Lemma joined_step s a :
  concurrentConnections (ml s) < 2 ^ 31 -> joined s -> joined (step s a).
Proof.
  intros Hfit (Hc & Hwg & Hn & Hgo & Hmain).
  pose proof (count_pc_range is_exited (workers s)) as Hrange.
  step_cases s a as now w0 ok err; unfold joined.
  all: try books.
  - (* the loop that starts the workers *)
    destruct (Z.ltb_spec i (concurrentConnections (ml s))); books.
  - (* Wait *)
    destruct (Z.eqb_spec (wg (ml s)) 0); books.
  - (* SpawnJob *)
    destruct (SpawnJob now (pool (ml s))) as [granted p].
    destruct granted; books.
  - (* the deferred Done: the counter is positive *)
    pose proof (count_pc_below is_exited (workers s) w0 WDone) as Hlow.
    specialize (Hlow ltac:(done) eq_refl).
    unfold wgAdd. cbv zeta. rewrite to_int32_small by lia.
    destruct (Z.ltb_spec (wg (ml s) + -1) 0); [lia|]. books.
  - (* the receive *)
    destruct (0 <? interruptChan s); books.
Qed.

(** The books are kept throughout when the configured number fits the
    32 bits of the counter. *)
Lemma joined_run l sched :
  wg l = concurrentConnections l ->
  0 <= concurrentConnections l < 2 ^ 31 ->
  joined (run sched (init l)).
Proof.
  intros Hwg Hc.
  cut (configured l (run sched (init l)) /\ joined (run sched (init l)));
    [tauto|].
  apply (run_invariant (fun s => configured l s /\ joined s)).
  - split; [done|]. apply joined_init; [done|lia].
  - intros s a _ [Hcfg Hj]. split; [by apply configured_step|].
    apply joined_step; [|done]. destruct Hcfg as [_ ->]. lia.
Qed.

(** *** The wait group, whatever the configured number *)

Ltac tally :=
  recount; repeat split;
  first [done | lia | destruct (main _); lia | intros ?; lia].

Lemma counted_step s a : crashed s = None -> counted s -> counted (step s a).
Proof.
  intros Hc (Hpos & Hwg & Hn & Hgo & Hmain & _).
  pose proof (count_pc_range is_exited (workers s)) as Hrange.
  pose proof (to_int32_range (concurrentConnections (ml s))) as Hfit.
  step_cases s a as now w0 ok err; unfold counted.
  all: try tally.
  - (* the loop that starts the workers *)
    destruct (Z.ltb_spec i (concurrentConnections (ml s))); tally.
  - (* Wait *)
    destruct (Z.eqb_spec (wg (ml s)) 0); tally.
  - (* SpawnJob *)
    destruct (SpawnJob now (pool (ml s))) as [granted p].
    destruct granted; tally.
  - (* the deferred Done: at zero it panics, and this worker is left *)
    pose proof (count_pc_below is_exited (workers s) w0 WDone) as Hlow.
    specialize (Hlow ltac:(done) eq_refl).
    unfold wgAdd. cbv zeta. rewrite to_int32_small by lia.
    destruct (Z.ltb_spec (wg (ml s) + -1) 0); tally.
  - (* the receive *)
    destruct (0 <? interruptChan s); tally.
Qed.

Lemma counted_run l sched :
  wg l = to_int32 (concurrentConnections l) -> 0 <= wg l ->
  counted (run sched (init l)).
Proof.
  intros Hwg Hpos. apply run_invariant; [|apply counted_step].
  unfold counted, init, count_pc, count_events. simpl.
  repeat split; first [done | lia].
Qed.

(** *** The loop that starts the workers comes to its end *)

Lemma turns_left_step s a :
  crashed s = None ->
  turns_left (step s a) <= Z.max 0 (turns_left s - Z.b2z (is_main a)).
Proof.
  intros Hc.
  assert (forall s',
             main s' = main s ->
             concurrentConnections (ml s') = concurrentConnections (ml s) ->
             turns_left s' <= Z.max 0 (turns_left s - 0)) as Hsame.
  { intros s' Hm Hcc. unfold turns_left. rewrite Hm, Hcc.
    destruct (main s); lia. }
  step_cases s a as now w0 ok err; cbn [is_main Z.b2z].
  all: try (apply Hsame; by fields).
  all: try (unfold turns_left; fields; recall; lia).
  - (* the loop that starts the workers *)
    unfold turns_left.
    destruct (Z.ltb_spec i (concurrentConnections (ml s))); fields; recall;
      lia.
  - (* Wait *)
    unfold turns_left. destruct (wg (ml s) =? 0); fields; recall; lia.
  - destruct (SpawnJob now (pool (ml s))) as [granted p].
    apply Hsame; by fields.
  - destruct (wgAdd (-1) (wg (ml s))); apply Hsame; by fields.
  - destruct (0 <? interruptChan s); apply Hsame; by fields.
Qed.

Lemma crashed_stays s a msg : crashed s = Some msg -> step s a = s.
Proof. intros Hc. unfold step. by rewrite Hc. Qed.

Lemma turns_left_run more s :
  crashed (run more s) = None ->
  turns_left (run more s)
  <= Z.max 0 (turns_left s - Z.of_nat (length (List.filter is_main more))).
Proof.
  induction more as [|a more IH] using rev_ind.
  - intros _. simpl. unfold turns_left. destruct (main s); lia.
  - rewrite run_snoc, List.filter_app, length_app.
    destruct (crashed (run more s)) as [msg|] eqn:Hc.
    + rewrite (crashed_stays _ _ _ Hc). congruence.
    + intros _. specialize (IH eq_refl).
      pose proof (turns_left_step (run more s) a Hc) as Hstep.
      simpl. destruct (is_main a); simpl in *; lia.
Qed.

Lemma turns_left_none s : turns_left s <= 0 -> started s = true.
Proof. unfold turns_left, started. destruct (main s); (done || lia). Qed.


(** *** The interrupt *)

Lemma count_events_nonneg f t : 0 <= count_events f t.
Proof. unfold count_events. lia. Qed.

Lemma interrupt_handled_init l : interrupt_handled (init l).
Proof.
  unfold interrupt_handled, init, count_events. simpl.
  repeat split; (done || lia).
Qed.

Ltac settle :=
  recount; repeat split;
  first [done | lia | tauto | intuition congruence | intuition lia].

Lemma interrupt_handled_step s a :
  crashed s = None -> interrupt_handled s -> interrupt_handled (step s a).
Proof.
  intros Hc (Hcancel & Hchan & Hh).
  pose proof (count_events_nonneg is_signal (trace s)) as Hsig.
  step_cases s a as now w0 ok err; unfold interrupt_handled.
  all: try (destruct (handler s) eqn:?; settle).
  - destruct (_ <? concurrentConnections (ml s)); destruct (handler s) eqn:?; settle.
  - destruct (wg (ml s) =? 0); destruct (handler s) eqn:?; settle.
  - destruct (SpawnJob now (pool (ml s))) as [granted p].
    destruct (handler s) eqn:?; settle.
  - destruct (wgAdd (-1) (wg (ml s))) as [counter|msg];
      destruct (handler s) eqn:?; settle.
  - (* the receive *)
    destruct (Z.ltb_spec 0 (interruptChan s)); settle.
Qed.

Lemma interrupt_handled_run l sched : interrupt_handled (run sched (init l)).
Proof.
  apply run_invariant; [apply interrupt_handled_init|].
  apply interrupt_handled_step.
Qed.

(** *** The counters of the pool *)

Lemma SpawnJob_keeps now p :
  requestsDone (snd (SpawnJob now p)) = requestsDone p
  /\ cancelled (snd (SpawnJob now p)) = cancelled p
  /\ policy (snd (SpawnJob now p)) = policy p.
Proof.
  unfold SpawnJob. destruct (policy p) eqn:E; simpl; [done..|].
  destruct (0 <? remaining p); simpl; by rewrite ?E.
Qed.

Lemma cancel_flagged_step s a :
  crashed s = None -> interrupt_handled s ->
  cancel_flagged s -> cancel_flagged (step s a).
Proof.
  intros Hc (_ & _ & Hh) Hf. unfold cancel_flagged in *.
  step_cases s a as now w0 ok err; fields; recall; try done.
  - (* the interrupt goroutine starts *)
    rewrite Hf. destruct (handler s); try done. by destruct Hh.
  - by destruct (_ <? concurrentConnections (ml s)).
  - by destruct (wg (ml s) =? 0).
  - pose proof (SpawnJob_keeps now (pool (ml s))) as (_ & Hk & _).
    destruct (SpawnJob now (pool (ml s))) as [granted p]. simpl in Hk.
    fields. by rewrite Hk.
  - by destruct (wgAdd (-1) (wg (ml s))).
  - destruct (0 <? interruptChan s); fields; recall; [|done].
    by destruct (handler s).
Qed.

Lemma cancel_flagged_run l sched :
  cancelled (pool l) = false -> cancel_flagged (run sched (init l)).
Proof.
  intros Hfresh.
  cut (interrupt_handled (run sched (init l))
       /\ cancel_flagged (run sched (init l))); [tauto|].
  apply (run_invariant (fun s => interrupt_handled s /\ cancel_flagged s)).
  - split; [apply interrupt_handled_init|exact Hfresh].
  - intros s a Hc [Hi Hf].
    split; [by apply interrupt_handled_step|by apply cancel_flagged_step].
Qed.

Lemma done_counted_step s a :
  crashed s = None -> done_counted s -> done_counted (step s a).
Proof.
  intros Hc Hd. step_cases s a as now w0 ok err; unfold done_counted.
  all: try (recount; rewrite ?Z.add_0_r; exact Hd).
  - destruct (_ <? concurrentConnections (ml s)); recount;
      rewrite ?Z.add_0_r; exact Hd.
  - destruct (wg (ml s) =? 0); recount; exact Hd.
  - pose proof (SpawnJob_keeps now (pool (ml s))) as (Hk & _).
    destruct (SpawnJob now (pool (ml s))) as [granted p]. simpl in Hk.
    destruct granted; recount; rewrite Z.add_0_r, Hk; exact Hd.
  - (* MarkJobDone *)
    recount. unfold MarkJobDone. cbn [requestsDone]. unfold done_counted in Hd.
    rewrite Hd. by rewrite Zplus_mod_idemp_l.
  - destruct (wgAdd (-1) (wg (ml s))); recount; rewrite ?Z.add_0_r; exact Hd.
  - destruct (0 <? interruptChan s); recount; exact Hd.
Qed.

Lemma done_counted_run l sched :
  requestsDone (pool l) = 0 -> done_counted (run sched (init l)).
Proof.
  intros H0. apply run_invariant; [|apply done_counted_step].
  unfold done_counted, init, count_events. simpl. by rewrite H0.
Qed.

Lemma count_bounded_init k l :
  0 <= k -> pool l = NewDeductionJobPool k -> count_bounded k (init l).
Proof.
  intros Hk Hp. unfold count_bounded, init, count_events, count_pc. simpl.
  rewrite Hp. simpl. repeat split; (done || lia).
Qed.

Lemma count_bounded_step k s a :
  crashed s = None -> count_bounded k s -> count_bounded k (step s a).
Proof.
  intros Hc (Hpol & Hrem & Hsum & Hflight & Hlive).
  step_cases s a as now w0 ok err; unfold count_bounded.
  all: try (recount; repeat split; first [done | lia | intuition lia]).
  - destruct (_ <? concurrentConnections (ml s)); recount;
      repeat split; first [done | lia | intuition lia].
  - destruct (wg (ml s) =? 0); recount;
      repeat split; first [done | lia | intuition lia].
  - (* SpawnJob *)
    unfold SpawnJob. rewrite Hpol.
    destruct (Z.ltb_spec 0 (remaining (pool (ml s)))) as [Hpos|Hzero].
    + destruct (cancelled (pool (ml s))) eqn:Hcan; cbn [negb]; recount;
        cbn [policy remaining cancelled requestsDone];
        repeat split; first [done | lia | intuition lia].
    + pose proof (count_pc_range has_left (workers s)).
      recount. repeat split; first [done | lia | intuition lia].
  - (* MarkJobDone *)
    recount. unfold MarkJobDone. cbn [policy remaining cancelled].
    repeat split; first [done | lia | intuition lia].
  - destruct (wgAdd (-1) (wg (ml s))); recount;
      repeat split; first [done | lia | intuition lia].
  - destruct (0 <? interruptChan s); recount;
      repeat split; first [done | lia | intuition lia].
  - (* cancel *)
    recount. unfold Cancel. cbn [policy remaining cancelled].
    repeat split; first [done | lia | intuition lia].
Qed.

Lemma count_bounded_run k l sched :
  0 <= k -> pool l = NewDeductionJobPool k ->
  count_bounded k (run sched (init l)).
Proof.
  intros Hk Hp. apply run_invariant; [by apply count_bounded_init|].
  apply count_bounded_step.
Qed.

(** *** The summary *)





(** *** The answers of the database *)

Lemma step_answering f s s' a :
  held s = held s' -> held (step s a) = held (step s' (answering f a)).
Proof.
  destruct s, s'. unfold held. cbn. intros [= -> -> -> -> -> -> -> ->].
  unfold step. cbn. destruct crashed1; [done|].
  destruct a as [now|w now ok err| |]; cbn.
  - unfold Torment; cbn. destruct main1; cbn; try done.
    + by destruct (_ <? _).
    + by destruct (_ =? _).
  - unfold worker; cbn. destruct (workers1 !! w) as [[]|]; cbn; try done.
    + by destruct (SpawnJob _ _) as [[] ?].
    + by destruct (wgAdd _ _).
  - unfold interrupt; cbn. destruct notified1; [|done].
    by destruct (_ <? _).
  - unfold on_interrupt; cbn. destruct handler1; try done.
    by destruct (_ <? _).
Qed.

Lemma run_answering f sched :
  forall s s',
    held s = held s' ->
    held (run sched s) = held (run (map (answering f) sched) s').
Proof.
  induction sched as [|a sched IH]; intros s s' H; [done|].
  simpl. apply IH. by apply step_answering.
Qed.

Lemma turns_counted answers pc last :
  let t := flat_map iteration answers ++ pending pc last in
  length (List.filter is_operationE t)
  = (length (List.filter is_markE t)
     + match pc with WMarkJobDone => 1 | _ => 0 end)%nat.
Proof.
  cbv zeta. rewrite !List.filter_app, !length_app.
  assert (length (List.filter is_operationE (flat_map iteration answers))
          = length answers
          /\ length (List.filter is_markE (flat_map iteration answers))
             = length answers) as [-> ->].
  { induction answers as [|x answers [IHo IHm]]; [done|].
    simpl. by rewrite IHo, IHm. }
  destruct pc; simpl; lia.
Qed.

(** *** The interrupt goroutine runs to its end *)

Lemma handler_exited_step s a :
  interrupt_handled s -> handler s = GExited -> handler (step s a) = GExited.
Proof.
  intros (_ & _ & Hi) Hh. rewrite Hh in Hi. destruct Hi as (Hmain & _).
  unfold step. destruct (crashed s); [done|].
  destruct a as [now|w now ok err| |].
  - unfold Torment. destruct (main s) eqn:Hm; fields; try done.
    + by destruct (_ <? _).
    + by destruct (_ =? _).
  - unfold worker. destruct (workers s !! w) as [[]|]; fields; try done.
    + by destruct (SpawnJob _ _).
    + by destruct (wgAdd _ _).
  - unfold interrupt. by destruct (notified s); [destruct (_ <? _)|].
  - unfold on_interrupt. by rewrite Hh.
Qed.

Lemma handler_exited_run more s :
  interrupt_handled s -> handler s = GExited ->
  handler (run more s) = GExited.
Proof.
  revert s. induction more as [|a more IH]; intros s Hi Hh; [done|].
  simpl. apply IH; [|by apply handler_exited_step].
  destruct (crashed s) eqn:Hc.
  - unfold step. by rewrite Hc.
  - by apply interrupt_handled_step.
Qed.

Lemma handler_finishes s :
  crashed s = None -> interrupt_handled s ->
  1 <= count_events is_signal (trace s) ->
  handler (run [Handler; Handler] s) = GExited.
Proof.
  intros Hc (_ & Hchan & Hh) Hsig.
  change (run [Handler; Handler] s) with (step (step s Handler) Handler).
  assert (forall s', crashed s' = None -> handler s' = GCancel ->
                     handler (step s' Handler) = GExited) as Hcancel.
  { intros s' Hc' Hh'. unfold step. rewrite Hc'. unfold on_interrupt.
    by rewrite Hh'. }
  assert (forall s', handler s' = GExited ->
                     handler (step s' Handler) = GExited) as Hexited.
  { intros s' Hh'. unfold step. destruct (crashed s'); [done|].
    unfold on_interrupt. by rewrite Hh'. }
  destruct (handler s) eqn:Hhs.
  - lia.
  - destruct Hh as (_ & _ & Hiff).
    apply Hcancel; unfold step; rewrite Hc; unfold on_interrupt; rewrite Hhs;
      replace (0 <? interruptChan s) with true
        by (symmetry; apply Z.ltb_lt; lia);
      by fields.
  - apply Hexited. by apply Hcancel.
  - apply Hexited. by apply Hexited.
Qed.

(** *** [Torment] returns *)



(** *** The claims about a run *)

Lemma loop_shaped_run (load : mongoload) (sched : list action) :
  loop_shaped (run sched (init load)).
Proof.
  apply run_invariant; [by intros v|intros s a; apply loop_shaped_step].
Qed.

(** C1.  In every run, under every schedule, what a worker has done is
    a sequence of full turns of the loop, each of them a granted
    [SpawnJob], then [Take], then one operation, then [MarkJobDone],
    followed by the part of a turn it is in the middle of.  A worker
    that has left the loop did so on [SpawnJob] answering false, and
    did nothing after that answer but the deferred [wg.Done]. *)
Theorem worker_loop (load : mongoload) (sched : list action)
    (w : nat) (pc : wpc) :
  workers (run sched (init load)) !! w = Some pc ->
  exists answers last,
    wtrace w (trace (run sched (init load)))
    = flat_map iteration answers ++ pending pc last.
Proof.
  intros Hw. pose proof (loop_shaped_run load sched w) as Hshape.
  by rewrite Hw in Hshape.
Qed.

(** C2.  A count-bounded pool that starts with [k] operations, under
    any number of workers and any schedule: the remaining counter is
    never negative, [SpawnJob] answers true at most [k] times and the
    completed count never exceeds [k]; once every worker has exited,
    there being at least one, and the pool has not been cancelled,
    [GetRequestsDone] is exactly [k], [SpawnJob] has answered true
    exactly [k] times and nothing remains. *)
Theorem count_bounded_exact (k : Z) (load : mongoload)
    (sched : list action) :
  0 <= k < 2 ^ 64 ->
  pool load = NewDeductionJobPool k ->
  let st := run sched (init load) in
  0 <= remaining (pool (ml st))
  /\ count_events is_granted (trace st) <= k
  /\ GetRequestsDone (pool (ml st)) <= k
  /\ (workers st <> [] -> all_exited st = true ->
      cancelled (pool (ml st)) = false ->
      GetRequestsDone (pool (ml st)) = k
      /\ count_events is_granted (trace st) = k
      /\ remaining (pool (ml st)) = 0).
Proof.
  intros Hk Hp st.
  destruct (count_bounded_run k load sched ltac:(lia) Hp)
    as (_ & Hrem & Hsum & Hflight & Hlive). fold st in Hrem, Hsum, Hflight, Hlive.
  assert (done_counted st) as Hd.
  { apply done_counted_run. by rewrite Hp. }
  unfold done_counted in Hd. unfold GetRequestsDone.
  pose proof (count_events_nonneg is_mark (trace st)) as Hm.
  pose proof (count_pc_range in_flight (workers st)) as Hf.
  rewrite Z.mod_small in Hd by lia.
  do 3 (split; [lia|]).
  intros Hne Hall Hcan. destruct (Hlive Hcan) as [Hexact Hleft].
  destruct (all_exited_classes _ Hall) as [H0 Hfull].
  assert (0 < length (workers st))%nat
    by (destruct (workers st); [done|simpl; lia]).
  lia.
Qed.

(** C4 (as the code has it).  What the database answers, success or
    error, changes nothing the program holds: under the same schedule
    with any other answers the engine, the workers and the caller are
    in the same state, so that a failed operation stops no loop and is
    counted like any other.  The completed counter counts the calls of
    [MarkJobDone], and every operation of a worker is followed by its
    [MarkJobDone].  The answers themselves are dropped: nothing the
    program holds tells successes from failures. *)
Theorem answers_are_dropped (load : mongoload) (sched : list action)
    (f : nat -> bool * error) :
  let st := run sched (init load) in
  held (run (map (answering f) sched) (init load)) = held st
  /\ (requestsDone (pool load) = 0 ->
      GetRequestsDone (pool (ml st))
      = count_events is_mark (trace st) mod 2 ^ 64)
  /\ (forall w pc,
        workers st !! w = Some pc ->
        operations_of w (trace st)
        = (completions_of w (trace st)
           + match pc with WMarkJobDone => 1 | _ => 0 end)%nat).
Proof.
  intros st. repeat split.
  - symmetry. by apply run_answering.
  - intros H0. by apply done_counted_run.
  - intros w pc Hw.
    pose proof (loop_shaped_run load sched w) as Hshape. fold st in Hshape.
    rewrite Hw in Hshape. destruct Hshape as (answers & last & Hshape).
    unfold operations_of, completions_of. rewrite Hshape.
    apply turns_counted.
Qed.


(** C8.  With the engine [New] has built, under every schedule and
    any number of interrupts: [cancel] is called at most once, and the
    job pool is cancelled exactly when that one call has been made, so
    that the call is [Cancel] on the pool and nothing else cancels it;
    neither an interrupt nor a step of the interrupt goroutine ever
    panics, and nothing at all panics when the connection count fits
    the 32 bits of the wait group's counter; and when at least one
    interrupt has arrived during the run, then as soon as the interrupt
    goroutine has had its two steps [cancel] has been called exactly
    once and the pool is cancelled, and that stays so whatever comes
    after, further interrupts included. *)
Theorem interrupt_cancels_once now ops conns rl d database load err
    (sched : list action) :
  New now ops conns rl d database = Returned (load, err) ->
  let st := run sched (init load) in
  count_events is_cancel (trace st) <= 1
  /\ (cancelled (pool (ml st)) = true
      <-> count_events is_cancel (trace st) = 1)
  /\ (crashed st = None ->
      crashed (step st Signal) = None /\ crashed (step st Handler) = None)
  /\ (- 2 ^ 31 <= conns < 2 ^ 31 -> crashed st = None)
  /\ (crashed st = None ->
      1 <= count_events is_signal (trace st) ->
      forall more,
        let st' := run (sched ++ [Handler; Handler] ++ more) (init load) in
        count_events is_cancel (trace st') = 1
        /\ cancelled (pool (ml st')) = true).
Proof.
  intros Hnew st.
  destruct (New_returned_any _ _ _ _ _ _ _ _ Hnew)
    as (_ & _ & _ & _ & _ & Hfresh).
  assert (forall sched',
             let s := run sched' (init load) in
             cancelled (pool (ml s)) = true
             <-> count_events is_cancel (trace s) = 1) as Hiff.
  { intros sched' s.
    pose proof (cancel_flagged_run load sched' Hfresh) as Hf.
    destruct (interrupt_handled_run load sched') as (Hcount & _).
    fold s in Hf, Hcount. unfold cancel_flagged in Hf.
    rewrite Hf, Hcount. destruct (handler s); split; (done || lia). }
  pose proof (interrupt_handled_run load sched) as Hi. fold st in Hi.
  split; [|split; [|split; [|split]]].
  - destruct Hi as (-> & _). destruct (handler st); lia.
  - apply Hiff.
  - intros Hc. split; unfold step; rewrite Hc.
    + unfold interrupt. by destruct (notified st); [destruct (_ <? _)|].
    + unfold on_interrupt. destruct (handler st); try done.
      by destruct (_ <? _).
  - intros Hfit.
    destruct (New_returned _ _ _ _ _ _ _ _ Hnew Hfit)
      as (_ & _ & _ & Hwg & Hc & _).
    apply (joined_run load sched Hwg). lia.
  - intros Hc Hsig more st'.
    assert (count_events is_cancel (trace st') = 1) as Hone.
    { pose proof (interrupt_handled_run load
                    (sched ++ [Handler; Handler] ++ more)) as (Hcount & _).
      fold st' in Hcount. rewrite Hcount. unfold st'.
      rewrite !run_app. fold st.
      rewrite handler_exited_run; [done| |].
      + unfold st. rewrite <- run_app. apply interrupt_handled_run.
      + by apply handler_finishes. }
    split; [exact Hone|]. by apply Hiff.
Qed.

(** C9.  For a connection count [conns] from 0 up to [2^31 - 1], [New]
    returns an engine configured for [conns] workers, or for 100 when
    [conns] is zero, and in every run of it: [Torment] starts one
    worker per [go] statement, never more than the configured number,
    and exactly that number once its loop is over; and the loop does
    come to its end: whatever else is scheduled in between, once
    [Torment] has had two turns more than the configured number, all
    the workers have been started. *)
Theorem Torment_starts_workers (now ops conns rl d : Z)
    (database : DbClient) :
  0 <= conns < 2 ^ 31 ->
  let n := if conns =? 0 then 100 else conns in
  exists load,
    New now ops conns rl d database = Returned (load, None)
    /\ concurrentConnections load = n
    /\ forall sched,
         let st := run sched (init load) in
         Z.of_nat (length (workers st)) = count_events is_go (trace st)
         /\ Z.of_nat (length (workers st)) <= n
         /\ (started st = true -> Z.of_nat (length (workers st)) = n)
         /\ (n + 2 <= Z.of_nat (length (List.filter is_main sched)) ->
             started st = true).
Proof.
  intros Hfit n.
  destruct (New now ops conns rl d database) as [[load err]|msg] eqn:Hnew.
  2: { exfalso. rewrite New_unfold in Hnew. fold n in Hnew.
       assert (to_int32 n = n) as Hsmall.
       { apply to_int32_small. unfold n. destruct (conns =? 0); lia. }
       rewrite Hsmall in Hnew.
       destruct (Z.ltb_spec n 0) as [Hneg|_]; [|discriminate].
       unfold n in Hneg. destruct (conns =? 0); lia. }
  destruct (New_returned _ _ _ _ _ _ _ _ Hnew ltac:(lia))
    as (-> & _ & Hn & Hwg & Hc & _). fold n in Hn.
  exists load. do 2 (split; [done|]). intros sched st.
  destruct (joined_run load sched Hwg ltac:(lia))
    as (Hcrash & _ & Hle & Hgo & Hmain).
  destruct (configured_run load sched) as [_ Hconns].
  fold st in Hcrash, Hle, Hgo, Hmain, Hconns. rewrite Hconns, Hn in *.
  do 2 (split; [done|]). split.
  - unfold started. destruct (main st); try done; lia.
  - intros Hturns. apply turns_left_none.
    pose proof (turns_left_run sched (init load) Hcrash) as Hleft.
    fold st in Hleft. unfold turns_left at 2 in Hleft. simpl in Hleft.
    rewrite Hn in Hleft. lia.
Qed.

End RunFacts.

(* ================================================================== *)
(** ** The claims on concrete runs *)
(* ================================================================== *)

Section Examples.

Import Worker Mongoload Demo.

Lemma New_one_worker : New 0 1 1 0 0 demo_db = Returned (one_worker, None).
Proof. reflexivity. Defined.

(** C1, on a whole run of one worker with one operation: the worker
    has exited, and its events are one full turn followed by the
    refused [SpawnJob] and the [wg.Done]. *)
Lemma worker_loop_witness :
  workers (run (single_run true None) (init one_worker)) !! 0%nat
  = Some WExited
  /\ exists answers last,
      wtrace 0 (trace (run (single_run true None) (init one_worker)))
      = flat_map iteration answers ++ pending WExited last.
Proof.
  split; [reflexivity|].
  apply (worker_loop one_worker (single_run true None) 0 WExited).
  reflexivity.
Defined.

(** C2, on two workers sharing three operations. *)
Lemma count_bounded_exact_witness :
  0 <= 3 < 2 ^ 64
  /\ pool two_workers = NewDeductionJobPool 3
  /\ workers (run shared_run (init two_workers)) <> []
  /\ all_exited (run shared_run (init two_workers)) = true
  /\ cancelled (pool (ml (run shared_run (init two_workers)))) = false
  /\ GetRequestsDone (pool (ml (run shared_run (init two_workers)))) = 3
  /\ count_events is_granted (trace (run shared_run (init two_workers))) = 3.
Proof.
  assert (0 <= 3 < 2 ^ 64) as Hk by (split; [discriminate|reflexivity]).
  assert (workers (run shared_run (init two_workers)) <> []) as Hne
    by (vm_compute; discriminate).
  do 2 (split; [done|]). split; [exact Hne|]. do 2 (split; [reflexivity|]).
  destruct (count_bounded_exact 3 two_workers shared_run Hk eq_refl)
    as (_ & _ & _ & H).
  destruct (H Hne eq_refl eq_refl) as (Hdone & Hgranted & _).
  split; [exact Hdone|exact Hgranted].
Defined.

(** C4, on a run whose only operation succeeds, against the same run
    with the operation failing. *)
Lemma answers_are_dropped_witness :
  requestsDone (pool one_worker) = 0
  /\ workers (run (single_run true None) (init one_worker)) !! 0%nat
     = Some WExited
  /\ held (run (single_run false (Some "timeout"%string)) (init one_worker))
     = held (run (single_run true None) (init one_worker))
  /\ GetRequestsDone (pool (ml (run (single_run true None) (init one_worker))))
     = count_events is_mark
         (trace (run (single_run true None) (init one_worker))) mod 2 ^ 64
  /\ operations_of 0 (trace (run (single_run true None) (init one_worker)))
     = (completions_of 0
          (trace (run (single_run true None) (init one_worker))) + 0)%nat.
Proof.
  do 2 (split; [reflexivity|]).
  destruct (answers_are_dropped one_worker (single_run true None)
              (fun _ => (false, Some "timeout"%string)))
    as (Hheld & Hdone & Hturns).
  split; [exact Hheld|]. split; [exact (Hdone eq_refl)|].
  exact (Hturns 0%nat WExited eq_refl).
Defined.

(** C4, against the claim: no count of successes can be read from what
    the program holds, since a run with one success and a run with one
    failure end in the same state. *)
Lemma no_tallies :
  ~ exists tally : program_state -> nat,
      tally (held (run (single_run true None) (init one_worker))) = 1%nat
      /\ tally (held (run (single_run false (Some "timeout"%string))
                        (init one_worker))) = 0%nat.
Proof.
  intros (tally & Hok & Hfail).
  assert (held (run (single_run false (Some "timeout"%string))
                  (init one_worker))
          = held (run (single_run true None) (init one_worker))) as Hsame
    by reflexivity.
  rewrite Hsame in Hfail. congruence.
Qed.


(** C8, on three interrupts, and two more after the cancellation: one
    call of [cancel], and the pool is cancelled. *)
Lemma interrupt_cancels_once_witness :
  New 0 1 1 0 0 demo_db = Returned (one_worker, None)
  /\ crashed (run interrupted_run (init one_worker)) = None
  /\ 1 <= count_events is_signal
            (trace (run interrupted_run (init one_worker)))
  /\ count_events is_cancel
       (trace (run (interrupted_run ++ [Handler; Handler]
                    ++ [Signal; Signal; Handler]) (init one_worker))) = 1
  /\ cancelled
       (pool (ml (run (interrupted_run ++ [Handler; Handler]
                       ++ [Signal; Signal; Handler]) (init one_worker))))
     = true.
Proof.
  split; [exact New_one_worker|]. split; [reflexivity|].
  assert (1 <= count_events is_signal
                 (trace (run interrupted_run (init one_worker)))) as Hsig
    by discriminate.
  split; [exact Hsig|].
  destruct (interrupt_cancels_once 0 1 1 0 0 demo_db one_worker None
              interrupted_run New_one_worker) as (_ & _ & _ & _ & H).
  exact (H eq_refl Hsig [Signal; Signal; Handler]).
Defined.

(** C9, on a connection count of two: after four turns of [Torment],
    among an interrupt and a step of a worker, two workers run. *)
Lemma Torment_starts_workers_witness :
  0 <= 2 < 2 ^ 31
  /\ exists load,
      New 0 3 2 0 0 demo_db = Returned (load, None)
      /\ started (run starting_run (init load)) = true
      /\ Z.of_nat (length (workers (run starting_run (init load)))) = 2.
Proof.
  assert (0 <= 2 < 2 ^ 31) as Hfit by lia.
  split; [exact Hfit|].
  destruct (Torment_starts_workers 0 3 2 0 0 demo_db Hfit)
    as (load & Hnew & _ & Hrun).
  exists load. split; [exact Hnew|].
  destruct (Hrun starting_run) as (_ & _ & Hall & Hends).
  assert (started (run starting_run (init load)) = true) as Hstarted
    by (apply Hends; simpl; lia).
  split; [exact Hstarted|]. exact (Hall Hstarted).
Defined.

(** C10, on five connections: [New] returns. *)
Lemma New_error_nil_witness :
  0 <= 5 < 2 ^ 31 /\ returns (New 0 1 5 0 0 demo_db) = true.
Proof.
  assert (0 <= 5 < 2 ^ 31) as Hfit by lia.
  split; [exact Hfit|].
  exact (proj1 (proj2 (New_error_nil 0 1 5 0 0 demo_db)) Hfit).
Defined.

(** The counter of the wait group has 32 bits: a connection count of
    [2^31] makes [New] panic, and with [-2^32] it returns an engine
    whose counter is zero, on which [Torment] starts no worker and goes
    through [wg.Wait] at once. *)
Lemma New_wraps_the_count :
  New 0 1 (2 ^ 31) 0 0 demo_db = Panicked "sync: negative WaitGroup counter"
  /\ exists load,
      New 0 1 (- 2 ^ 32) 0 0 demo_db = Returned (load, None)
      /\ wg load = 0
      /\ concurrentConnections load = - 2 ^ 32
      /\ waited (run (repeat (Main 0) 4) (init load)) = true
      /\ workers (run (repeat (Main 0) 4) (init load)) = [].
Proof.
  split; [by vm_compute|]. eexists. split; [by vm_compute|].
  by vm_compute.
Qed.

(** With a connection count of [-2^32 + 5] the counter starts at 5 and
    [Torment], which starts no worker for a negative number, waits for
    ever with no worker to wait for. *)
Lemma Torment_waits_alone :
  exists load,
    New 0 1 (- 2 ^ 32 + 5) 0 0 demo_db = Returned (load, None)
    /\ wg load = 5
    /\ main (run (repeat (Main 0) 4) (init load)) = MWait
    /\ step (run (repeat (Main 0) 4) (init load)) (Main 0)
       = run (repeat (Main 0) 4) (init load)
    /\ workers (run (repeat (Main 0) 4) (init load)) = [].
Proof.
  eexists. split; [by vm_compute|]. by vm_compute.
Qed.

End Examples.

(* ================================================================== *)
(** ** The bot *)
(* ================================================================== *)

Section LbotFacts.

Import Lbot.

Context {Context SchemaT JobT DataPool Worker : Type}.
Context (Name : SchemaT -> string) (Schema : JobT -> string).
Context (NewDataPool : SchemaT -> DataPool).
Context (NewWorker :
           Context -> Config SchemaT JobT -> JobT -> option DataPool
           -> Worker * error).

Local Abbreviation machine := (machine Context SchemaT JobT DataPool Worker).
Local Abbreviation pool_of := (pool_of Name Schema NewDataPool).
Local Abbreviation worker_of :=
  (worker_of Name Schema NewDataPool NewWorker).
Local Abbreviation fails := (fails Name Schema NewDataPool NewWorker).
Local Abbreviation cycle := (cycle Name Schema NewDataPool NewWorker).
Local Abbreviation Run := (Run Name Schema NewDataPool NewWorker).

Lemma init_datapools_calls schemas (dataPools : gmap string DataPool)
    (m : machine) :
  snd (init_datapools Name NewDataPool schemas (dataPools, m))
  = {| bot := bot m; calls := calls m ++ map CallNewDataPool schemas |}.
Proof.
  revert dataPools m.
  induction schemas as [|sh schemas IH]; intros dataPools m.
  - simpl. rewrite app_nil_r. by destruct m.
  - unfold init_datapools in *. simpl. rewrite IH. unfold record. simpl.
    by rewrite <- app_assoc.
Qed.

Lemma init_datapools_lookup schemas (dataPools : gmap string DataPool)
    (m : machine) (name : string) :
  fst (init_datapools Name NewDataPool schemas (dataPools, m)) !! name
  = match last (List.filter (fun sh => String.eqb (Name sh) name) schemas)
    with
    | Some sh => Some (NewDataPool sh)
    | None => dataPools !! name
    end.
Proof.
  revert dataPools m.
  induction schemas as [|sh schemas IH]; intros dataPools m; [done|].
  unfold init_datapools in *. simpl fold_left. rewrite IH.
  simpl List.filter. destruct (String.eqb_spec (Name sh) name) as [E|E].
  - destruct (List.filter _ schemas) as [|x l] eqn:Hf.
    + simpl. by rewrite E, lookup_insert_eq.
    + rewrite last_cons_cons. destruct (last (x :: l)) eqn:Hl; [done|].
      by apply last_None in Hl.
  - destruct (last _); [done|]. by rewrite lookup_insert_ne.
Qed.

Lemma datapools_built (schemas : list SchemaT) (m : machine)
    (name : string) :
  fst (init_datapools Name NewDataPool schemas (∅, m)) !! name
  = NewDataPool
      <$> last (List.filter (fun sh => String.eqb (Name sh) name) schemas).
Proof.
  rewrite init_datapools_lookup. by destruct (last _).
Qed.

Lemma pool_of_none schemas job :
  Forall (fun sh => Name sh <> Schema job) schemas ->
  pool_of schemas job = None.
Proof.
  intros Hnone. unfold Lbot.pool_of.
  replace (List.filter (fun sh => String.eqb (Name sh) (Schema job)) schemas)
    with (@nil SchemaT); [done|].
  symmetry. induction Hnone as [|sh schemas Hsh _ IH]; [done|].
  simpl. by rewrite (proj2 (String.eqb_neq _ _) Hsh).
Qed.

Lemma pool_of_last first sh rest job :
  Name sh = Schema job ->
  Forall (fun sh' => Name sh' <> Schema job) rest ->
  pool_of (first ++ sh :: rest) job = Some (NewDataPool sh).
Proof.
  intros Hname Hrest. unfold Lbot.pool_of.
  rewrite List.filter_app. simpl.
  rewrite (proj2 (String.eqb_eq _ _) Hname).
  replace (List.filter (fun sh => String.eqb (Name sh) (Schema job)) rest)
    with (@nil SchemaT).
  - by rewrite last_snoc.
  - symmetry. induction Hrest as [|sh' rest Hsh _ IH]; [done|].
    simpl. by rewrite (proj2 (String.eqb_neq _ _) Hsh).
Qed.

Lemma run_job_unfold cfg schemas dataPools job (m : machine) :
  (forall name,
      dataPools !! name
      = NewDataPool
          <$> last (List.filter (fun sh => String.eqb (Name sh) name)
                      schemas)) ->
  Schemas cfg = schemas ->
  run_job Schema NewWorker cfg dataPools job m
  = let m' := {| bot := {| ctx := ctx (bot m); config := config (bot m);
                           workers := workers (bot m)
                                      ++ [worker_of (ctx (bot m)) cfg job] |};
                 calls := calls m |} in
    if fails (ctx (bot m)) cfg job then
      Panic "Worker initialization error"
        {| bot := bot m';
           calls := calls m ++ [CallNewWorker job (pool_of schemas job)] |}
    else
      Done {| bot := bot m';
              calls := calls m ++ cycle (ctx (bot m)) cfg job |}.
Proof.
  intros Hpools Hs. unfold run_job, Lbot.cycle, Lbot.fails, Lbot.worker_of.
  rewrite Hpools. fold (pool_of schemas job). rewrite Hs.
  destruct (NewWorker _ _ _ _) as [w [e|]]; cbn.
  - done.
  - unfold record, append_worker. cbn. by rewrite <- !app_assoc.
Qed.

Lemma run_jobs_unfold cfg dataPools before (m : machine) rest :
  (forall name,
      dataPools !! name
      = NewDataPool
          <$> last (List.filter (fun sh => String.eqb (Name sh) name)
                      (Schemas cfg))) ->
  Forall (fun job => fails (ctx (bot m)) cfg job = false) before ->
  run_jobs Schema NewWorker cfg dataPools (before ++ rest) m
  = run_jobs Schema NewWorker cfg dataPools rest
      {| bot := {| ctx := ctx (bot m); config := config (bot m);
                   workers := workers (bot m)
                              ++ map (worker_of (ctx (bot m)) cfg) before |};
         calls := calls m ++ flat_map (cycle (ctx (bot m)) cfg) before |}.
Proof.
  intros Hpools. revert m.
  induction before as [|job before IH]; intros m Hok.
  - simpl. rewrite !app_nil_r. by destruct m as [[]].
  - apply Forall_cons in Hok as [Hjob Hok]. simpl app. simpl run_jobs.
    rewrite (run_job_unfold cfg (Schemas cfg)) by done. cbv zeta.
    rewrite Hjob. rewrite IH by done. cbn [bot ctx config workers calls].
    simpl map. simpl flat_map. by rewrite <- !app_assoc.
Qed.

Lemma ctx_kept cfg dataPools jobs (m : machine) :
  ctx (bot (machine_of (run_jobs Schema NewWorker cfg dataPools jobs m)))
  = ctx (bot m).
Proof.
  revert m. induction jobs as [|job jobs IH]; intros m; [done|].
  simpl. unfold run_job.
  destruct (NewWorker _ _ _ _) as [w [e|]]; cbn; [done|].
  by rewrite IH.
Qed.

Lemma Run_unfold cfg (m : machine) :
  config (bot m) = Some cfg ->
  Run m
  = run_jobs Schema NewWorker cfg
      (fst (init_datapools Name NewDataPool (Schemas cfg) (∅, m)))
      (Jobs cfg)
      {| bot := bot m;
         calls := calls m ++ map CallNewDataPool (Schemas cfg) |}.
Proof.
  intros Hcfg. unfold Lbot.Run. rewrite Hcfg.
  rewrite <- init_datapools_calls with (dataPools := ∅).
  by destruct (init_datapools _ _ _ _).
Qed.

(** The second loop of [Run] only adds to the calls made. *)
Lemma run_jobs_extends cfg dataPools jobs (m : machine) :
  exists post,
    calls (machine_of (run_jobs Schema NewWorker cfg dataPools jobs m))
    = calls m ++ post.
Proof.
  revert m. induction jobs as [|job jobs IH]; intros m.
  - exists []. simpl. by rewrite app_nil_r.
  - simpl. unfold run_job.
    destruct (NewWorker _ _ _ _) as [w [e|]]; cbn.
    + by eexists.
    + match goal with
      | |- context [run_jobs _ _ _ _ jobs ?m'] =>
          destruct (IH m') as [post ->]
      end.
      cbn. rewrite <- !app_assoc. by eexists.
Qed.

(** X1.  The pool [Run] hands to a job.  When [Run] reaches a job, the
    workers of the jobs before it having been made, it calls
    [NewWorker] for that job with the pool made from the last schema of
    the configuration that bears the name the job asks for.  So a job
    whose schema name no schema bears is handed the nil pool, and of
    two schemas with the same name the later one decides. *)
Theorem Run_pools_last_schema_wins cfg (m : machine) before job after :
  config (bot m) = Some cfg ->
  Jobs cfg = before ++ job :: after ->
  Forall (fun job => fails (ctx (bot m)) cfg job = false) before ->
  let given dataPool :=
    exists post,
      calls (machine_of (Run m))
      = calls m ++ map CallNewDataPool (Schemas cfg)
        ++ flat_map (cycle (ctx (bot m)) cfg) before
        ++ CallNewWorker job dataPool :: post in
  given (pool_of (Schemas cfg) job)
  /\ (Forall (fun sh => Name sh <> Schema job) (Schemas cfg) -> given None)
  /\ (forall first sh rest,
        Schemas cfg = first ++ sh :: rest ->
        Name sh = Schema job ->
        Forall (fun sh' => Name sh' <> Schema job) rest ->
        given (Some (NewDataPool sh))).
Proof.
  intros Hcfg Hjobs Hok given.
  assert (given (pool_of (Schemas cfg) job)) as Hgiven.
  { unfold given. rewrite (Run_unfold cfg) by done. rewrite Hjobs.
    rewrite run_jobs_unfold; [|intros; apply datapools_built|done].
    simpl run_jobs.
    rewrite (run_job_unfold cfg (Schemas cfg));
      [|intros; apply datapools_built|done].
    cbv zeta. cbn [bot ctx config workers calls].
    destruct (fails (ctx (bot m)) cfg job).
    - exists []. simpl. by rewrite <- !app_assoc.
    - match goal with
      | |- context [run_jobs _ _ _ ?dp after ?m'] =>
          destruct (run_jobs_extends cfg dp after m') as [post ->]
      end.
      cbn [calls]. unfold Lbot.cycle at 2. rewrite <- !app_assoc.
      simpl. by eexists. }
  split; [exact Hgiven|]. split.
  - intros Hnone. by rewrite pool_of_none in Hgiven.
  - intros first sh rest Hs Hname Hrest.
    assert (pool_of (Schemas cfg) job = Some (NewDataPool sh)) as <-
      by (rewrite Hs; by apply pool_of_last).
    exact Hgiven.
Qed.

(** X2.  A run in which every worker can be made: [Run] returns; one
    pool was made per schema, in the order of the configuration; then
    the jobs were served one after the other in that order, each with a
    worker of its own, made with the pool of its schema, that reported,
    worked, summed up, copied its saved fields and was closed before
    the next worker was made; and the workers made were appended to
    those the bot held, none removed. *)
Theorem Run_serves_jobs_in_order cfg (m : machine) :
  config (bot m) = Some cfg ->
  Forall (fun job => fails (ctx (bot m)) cfg job = false) (Jobs cfg) ->
  Run m
  = Done {| bot := {| ctx := ctx (bot m); config := Some cfg;
                      workers := workers (bot m)
                                 ++ map (worker_of (ctx (bot m)) cfg)
                                      (Jobs cfg) |};
            calls := calls m ++ map CallNewDataPool (Schemas cfg)
                     ++ flat_map (cycle (ctx (bot m)) cfg) (Jobs cfg) |}.
Proof.
  intros Hcfg Hok. rewrite (Run_unfold cfg) by done.
  rewrite <- (app_nil_r (Jobs cfg)) at 1.
  rewrite run_jobs_unfold; [|intros; apply datapools_built|done].
  simpl. by rewrite Hcfg, <- app_assoc.
Qed.

(** X3.  A run in which a worker cannot be made: [Run] panics at the
    first job for which [NewWorker] reports an error.  The jobs before
    it were served in full and their workers closed; for the failing
    job nothing but [NewWorker] was called, its worker is never closed,
    yet it was appended to the workers of the bot like the others; and
    the jobs after it were not touched. *)
Theorem Run_panics_at_first_failure cfg (m : machine) before job after :
  config (bot m) = Some cfg ->
  Jobs cfg = before ++ job :: after ->
  Forall (fun job => fails (ctx (bot m)) cfg job = false) before ->
  fails (ctx (bot m)) cfg job = true ->
  Run m
  = Panic "Worker initialization error"
      {| bot := {| ctx := ctx (bot m); config := Some cfg;
                   workers := workers (bot m)
                              ++ map (worker_of (ctx (bot m)) cfg) before
                              ++ [worker_of (ctx (bot m)) cfg job] |};
         calls := calls m ++ map CallNewDataPool (Schemas cfg)
                  ++ flat_map (cycle (ctx (bot m)) cfg) before
                  ++ [CallNewWorker job (pool_of (Schemas cfg) job)] |}.
Proof.
  intros Hcfg Hjobs Hok Hfail. rewrite (Run_unfold cfg) by done.
  rewrite Hjobs.
  rewrite run_jobs_unfold; [|intros; apply datapools_built|done].
  simpl run_jobs.
  rewrite (run_job_unfold cfg (Schemas cfg));
    [|intros; apply datapools_built|done].
  cbv zeta. cbn [bot ctx config workers calls]. rewrite Hfail, Hcfg.
  by rewrite <- !app_assoc.
Qed.

Lemma run_jobs_returns cfg dataPools jobs (m : machine) :
  (forall name,
      dataPools !! name
      = NewDataPool
          <$> last (List.filter (fun sh => String.eqb (Name sh) name)
                      (Schemas cfg))) ->
  panicked (run_jobs Schema NewWorker cfg dataPools jobs m) = None
  <-> Forall (fun job => fails (ctx (bot m)) cfg job = false) jobs.
Proof.
  intros Hpools. revert m.
  induction jobs as [|job jobs IH]; intros m; [done|].
  simpl run_jobs. rewrite (run_job_unfold cfg (Schemas cfg)) by done.
  cbv zeta. rewrite Forall_cons.
  destruct (fails (ctx (bot m)) cfg job) eqn:Hjob.
  - simpl. split; [done|]. by intros [? _].
  - rewrite IH. cbn [bot ctx]. tauto.
Qed.

(** X4.  [Run] returns exactly when the bot has a configuration and a
    worker can be made for each of its jobs; on a bot that was never
    given a configuration it panics on the nil pointer, before any
    call. *)
Theorem Run_returns_iff (m : machine) :
  (panicked (Run m) = None
   <-> exists cfg,
        config (bot m) = Some cfg
        /\ Forall (fun job => fails (ctx (bot m)) cfg job = false)
             (Jobs cfg))
  /\ (config (bot m) = None -> machine_of (Run m) = m).
Proof.
  split.
  - destruct (config (bot m)) as [cfg|] eqn:Hcfg.
    + rewrite (Run_unfold cfg) by done.
      rewrite run_jobs_returns
        by (intros; apply datapools_built).
      cbn [bot ctx]. split; [by exists cfg|].
      by intros (cfg' & [= <-] & Hok).
    + unfold Lbot.Run. rewrite Hcfg. simpl.
      split; [done|]. by intros (cfg & [=] & _).
  - intros Hcfg. unfold Lbot.Run. by rewrite Hcfg.
Qed.

Lemma Cancel_unfold (m : machine) :
  Cancel m
  = ({| bot := {| ctx := ctx (bot m); config := config (bot m);
                  workers := [] |};
        calls := calls m ++ map CallCancel (workers (bot m)) |},
     None).
Proof.
  unfold Cancel.
  assert (forall ws (m0 : machine),
             fold_left (fun m1 w => record (CallCancel w) m1) ws m0
             = {| bot := bot m0; calls := calls m0 ++ map CallCancel ws |})
    as Hloop.
  { induction ws as [|w ws IH]; intros m0.
    - simpl. rewrite app_nil_r. by destruct m0.
    - simpl. rewrite IH. unfold record. simpl. by rewrite <- app_assoc. }
  by rewrite Hloop.
Qed.

(** X5.  [Cancel] cancels every worker the bot holds, once each and in
    the order they were made, forgets them all, keeps the
    configuration and reports no error; a second [Cancel] right after
    calls nothing and changes nothing. *)
Theorem Cancel_cancels_each_once (m : machine) :
  let m' := fst (Cancel m) in
  snd (Cancel m) = None
  /\ calls m' = calls m ++ map CallCancel (workers (bot m))
  /\ workers (bot m') = []
  /\ config (bot m') = config (bot m)
  /\ Cancel m' = (m', None).
Proof.
  rewrite !Cancel_unfold. cbn. repeat split.
Qed.

(** X6.  The life of a bot: made by [NewLbot], given a configuration
    for whose jobs the workers can be made, run and then cancelled, it
    is back in the state it had before the run, and each worker of the
    run was first closed by [Run] and then cancelled by [Cancel]. *)
Theorem bot_lifecycle (c : Context) cfg :
  Forall (fun job => fails c cfg job = false) (Jobs cfg) ->
  let l := SetConfig (Some cfg) (NewLbot c) in
  let m0 : machine := {| bot := l; calls := [] |} in
  exists m1,
    Run m0 = Done m1
    /\ Cancel m1
       = ({| bot := l;
             calls := map CallNewDataPool (Schemas cfg)
                      ++ flat_map (cycle c cfg) (Jobs cfg)
                      ++ map CallCancel (map (worker_of c cfg) (Jobs cfg)) |},
          None)
    /\ Forall (fun job => In (CallClose (worker_of c cfg job)) (calls m1))
         (Jobs cfg).
Proof.
  intros Hok l m0. eexists. split; [|split].
  - rewrite (Run_unfold cfg) by done.
    rewrite <- (app_nil_r (Jobs cfg)) at 1.
    rewrite run_jobs_unfold; [|intros; apply datapools_built|done].
    reflexivity.
  - rewrite Cancel_unfold. cbn. by rewrite <- app_assoc.
  - cbn. apply Forall_forall. intros job Hin.
    apply in_or_app. right. apply in_flat_map. exists job.
    split; [by apply list_elem_of_In|]. unfold Lbot.cycle. cbn. tauto.
Qed.

End LbotFacts.

(* ================================================================== *)
(** ** The configuration service *)
(* ================================================================== *)

Section ProtoFacts.

Import Proto.

Context {Ctx ConfigRequest ConfigResponse CallOption : Type}.
Context (zero_request : ConfigRequest) (zero_response : ConfigResponse).

Local Abbreviation service := (service Ctx ConfigRequest ConfigResponse).
Local Abbreviation interceptor_t :=
  (UnaryServerInterceptor Ctx ConfigRequest ConfigResponse).
Local Abbreviation SetConfig_Handler :=
  (ConfigService_SetConfig_Handler (ConfigResponse := ConfigResponse)
     zero_request).
Local Abbreviation GetConfig_Handler :=
  (@ConfigService_GetConfig_Handler Ctx ConfigRequest ConfigResponse).

(** X7.  A request that cannot be decoded never reaches the server:
    both handlers return the error of the decoder together with a nil
    reply, whatever the interceptor is and even when [srv] does not
    implement the service, in which case a decodable request would make
    them panic.  Without interceptor the reply is the nil interface
    only in that case: a request that was decoded yields a non-nil
    reply, also when the server returns a nil response. *)
Theorem handlers_reject_undecoded (srv : service) (c : Ctx)
    (dec : ConfigRequest -> ConfigRequest * option rpc_error)
    (interceptor : option interceptor_t) (e : rpc_error) :
  (snd (dec zero_request) = Some e ->
   SetConfig_Handler srv c dec interceptor = Returned (None, Some e))
  /\ GetConfig_Handler srv c (Some e) interceptor = Returned (None, Some e)
  /\ (snd (dec zero_request) = None ->
      returns (SetConfig_Handler NotAServer c dec None) = false
      /\ forall s,
          exists resp err,
            SetConfig_Handler (Implements s) c dec None
            = Returned (Some (MsgConfigResponse resp), err))
  /\ returns (GetConfig_Handler NotAServer c None None) = false
  /\ forall s,
      exists resp err,
        GetConfig_Handler (Implements s) c None None
        = Returned (Some (MsgConfigResponse resp), err).
Proof.
  unfold ConfigService_SetConfig_Handler, ConfigService_GetConfig_Handler.
  repeat split.
  - intros He. destruct (dec zero_request) as [req err].
    simpl in He. by rewrite He.
  - destruct (dec zero_request) as [req err]. simpl in *. by subst err.
  - intros s. destruct (dec zero_request) as [req err]. simpl in *.
    subst err. simpl. destruct (SetConfig s c req) as [resp err].
    by exists resp, err.
  - intros s. simpl. destruct (GetConfig s c) as [resp err].
    by exists resp, err.
Qed.

(** X8.  An interceptor that only calls the handler it is given is not
    seen: with it both handlers do exactly what they do without any
    interceptor, whatever the server, the decoder and the request. *)
Theorem handlers_transparent_interceptor (srv : service) (c : Ctx)
    (dec : ConfigRequest -> ConfigRequest * option rpc_error)
    (dec' : option rpc_error) (intercept : interceptor_t) :
  passes_on intercept ->
  SetConfig_Handler srv c dec (Some intercept)
  = SetConfig_Handler srv c dec None
  /\ GetConfig_Handler srv c dec' (Some intercept)
     = GetConfig_Handler srv c dec' None.
Proof.
  intros Hpass.
  unfold ConfigService_SetConfig_Handler, ConfigService_GetConfig_Handler.
  split.
  - destruct (dec zero_request) as [req [e|]]; [done|]. by rewrite Hpass.
  - destruct dec' as [e|]; [done|]. by rewrite Hpass.
Qed.

(** X9.  The client returns a response or an error, never both and
    never neither: the error is the one [Invoke] reports, under the
    full name of the method, and the response is the reply [Invoke]
    filled when there is no error; a reply filled along with an error
    is dropped. *)
Theorem client_response_or_error
    (cc : ClientConnInterface Ctx ConfigRequest ConfigResponse CallOption)
    (c : Ctx) (req : ConfigRequest) (opts : list CallOption) :
  let set := Client_SetConfig zero_response cc c req opts in
  let get := Client_GetConfig zero_response cc c opts in
  let set_reply :=
    Invoke cc c "/proto.ConfigService/SetConfig" (MsgConfigRequest req)
      zero_response opts in
  let get_reply :=
    Invoke cc c "/proto.ConfigService/GetConfig" MsgEmpty zero_response
      opts in
  snd set = snd set_reply
  /\ fst set
     = match snd set_reply with
       | Some _ => None
       | None => Some (fst set_reply)
       end
  /\ snd get = snd get_reply
  /\ fst get
     = match snd get_reply with
       | Some _ => None
       | None => Some (fst get_reply)
       end.
Proof.
  unfold Client_SetConfig, Client_GetConfig,
    ConfigService_SetConfig_FullMethodName,
    ConfigService_GetConfig_FullMethodName.
  cbv zeta.
  destruct (Invoke cc c "/proto.ConfigService/SetConfig" _ _ _)
    as [out1 [e1|]];
    destruct (Invoke cc c "/proto.ConfigService/GetConfig" _ _ _)
      as [out2 [e2|]]; done.
Qed.

End ProtoFacts.

(* ================================================================== *)
(** ** The config command *)
(* ================================================================== *)

Section CliFacts.

Import Cli.

Context {ConfigRequest : Type}.
Context (ParseStdInConfig : option ConfigRequest * error).
Context (ParseConfigFile : string -> option ConfigRequest * error).
Context (SetConfigWorkload : option ConfigRequest -> error).

Local Abbreviation configRunE :=
  (configRunE ParseStdInConfig ParseConfigFile SetConfigWorkload).

(** X10.  The config command and its two sources.  With neither a file
    nor stdin it calls nothing and returns its own error.  With both,
    stdin is parsed first and the file after it, and when both parse
    the configuration sent is the one of the file: what came from
    stdin is read and thrown away.  When stdin does not parse, the
    file is not even opened. *)
Theorem config_sources (configFile : string) :
  configRunE "" false
  = ([], Some "You need to provide configuration from either config-file or stdin"%string)
  /\ (configFile <> ""%string ->
      snd ParseStdInConfig = None ->
      snd (ParseConfigFile configFile) = None ->
      configRunE configFile true
      = ([CallParseStdInConfig; CallParseConfigFile configFile;
          CallSetConfigWorkload (fst (ParseConfigFile configFile))],
         SetConfigWorkload (fst (ParseConfigFile configFile))))
  /\ (forall e,
        snd ParseStdInConfig = Some e ->
        configRunE configFile true = ([CallParseStdInConfig], Some e)).
Proof.
  unfold Cli.configRunE. repeat split.
  - intros Hfile Hstdin Hparse.
    rewrite (proj2 (String.eqb_neq _ _) Hfile). simpl.
    by rewrite Hstdin, Hparse.
  - intros e He. rewrite andb_false_r. by rewrite He.
Qed.

(** X11.  The config command sends a configuration at most once, as
    its last call, and only one that a parser returned without error:
    that of the file when a file is named, that of stdin otherwise.
    Its error is then the one of the sending.  A configuration is sent
    exactly when a source is given and every parser that was run
    succeeded; otherwise the error returned is not nil. *)
Theorem config_sends_parsed_only (configFile : string) (stdin : bool) :
  let calls := fst (configRunE configFile stdin) in
  let err := snd (configRunE configFile stdin) in
  let parsed :=
    negb (String.eqb configFile "" && negb stdin)
    && (negb stdin || negb (bool_decide (is_Some (snd ParseStdInConfig))))
    && (String.eqb configFile ""
        || negb (bool_decide (is_Some (snd (ParseConfigFile configFile)))))
  in
  let cfg :=
    if String.eqb configFile "" then fst ParseStdInConfig
    else fst (ParseConfigFile configFile) in
  List.filter is_send calls
  = (if parsed then [CallSetConfigWorkload cfg] else [])
  /\ (parsed = true ->
      last calls = Some (CallSetConfigWorkload cfg)
      /\ err = SetConfigWorkload cfg)
  /\ (parsed = false -> is_Some err).
Proof.
  unfold Cli.configRunE. cbv zeta.
  destruct (String.eqb_spec configFile "") as [->|Hfile];
    destruct stdin; simpl;
    destruct ParseStdInConfig as [c1 [e1|]]; simpl;
    try destruct (ParseConfigFile configFile) as [c2 [e2|]]; simpl;
    repeat split; try done; try (intros; by eexists).
Qed.

End CliFacts.

(* ================================================================== *)
(** ** The Helm manager *)
(* ================================================================== *)

Section HelmFacts.

Import ResourceManager.

Context {Chart ClusterClient Values Release : Type}.

Local Abbreviation World := (World Chart ClusterClient Values Release).
Local Abbreviation HelmManager := (HelmManager Chart ClusterClient).

(** X12.  [NewHelmManager] returns a manager or an error, never both
    and never neither.  A chart that does not load ends it with that
    error before the cluster is asked for a client; otherwise the
    error is that of the cluster client; and the manager, when there is
    one, holds the configuration given, the chart loaded and the
    client obtained with the kubeconfig path and the context of the
    configuration. *)
Theorem NewHelmManager_outcome (w : World)
    (config : ResourceManagerConfig) :
  let calls := fst (NewHelmManager w config) in
  let manager := fst (snd (NewHelmManager w config)) in
  let err := snd (snd (NewHelmManager w config)) in
  let client :=
    GetClusterClient w (KubeconfigPath config) (Context config) in
  (is_Some manager <-> err = None)
  /\ (forall e, snd (LoadArchive w) = Some e ->
                calls = [CallLoadArchive] /\ err = Some e)
  /\ (snd (LoadArchive w) = None -> err = snd client)
  /\ (forall m, manager = Some m ->
                cfg m = config /\ chart m = fst (LoadArchive w)
                /\ clusterClient m = fst client).
Proof.
  unfold NewHelmManager. cbv zeta.
  destruct (LoadArchive w) as [loaded [e|]]; simpl.
  - repeat split; try done; try (by intros [m Hm]);
      by intros e' [= <-].
  - destruct (GetClusterClient w _ _) as [client [e|]]; simpl;
      repeat split; try done; try (by intros [m Hm]); try (by eexists);
      by match goal with H : Some _ = Some _ |- _ => injection H as <- end.
Qed.

(** X13.  [Install] with a manager that has a cluster client.  The
    action configuration is initialised in the namespace of the
    manager's configuration, and the answer of [Init] changes nothing;
    the installer works in the namespace of the request, always under
    the release name "dummy-release-name", with the timeout of the
    configuration.  Helm is run at most once, and only when the values
    could be merged: an error of the merge is returned as it is, an
    error of the run is returned behind the words "failed to install
    helm chart: ", and otherwise the error is nil. *)
Theorem Install_outcome (w : World) (c : HelmManager)
    (request : InstallRequest) (client : ClusterClient) :
  clusterClient c = Some client ->
  let calls := fst (Install w c request) in
  let installer :=
    {| InstallerNamespace := RequestNamespace request;
       ReleaseName := "dummy-release-name";
       Timeout := HelmTimeout (cfg c) |} in
  let values := ["workload.name=dummy-workload-name"%string] in
  let merged := MergeValues w values in
  firstn 3 calls
  = [CallGetenv "HELM_DRIVER";
     CallInit client (Namespace (cfg c)) (Getenv w "HELM_DRIVER");
     CallMergeValues values]
  /\ List.filter is_run calls
     = match snd merged with
       | Some _ => []
       | None => [CallRun installer (chart c) (fst merged)]
       end
  /\ snd (Install w c request)
     = Returned
         (match snd merged with
          | Some e => Some e
          | None =>
              match snd (RunInstall w installer (chart c) (fst merged)) with
              | Some e =>
                  Some (String.append "failed to install helm chart: " e)
              | None => None
              end
          end)
  /\ forall f, Install (with_Init f w) c request = Install w c request.
Proof.
  intros Hclient. unfold Install. rewrite Hclient. cbv zeta.
  destruct (MergeValues w _) as [vals [e|]] eqn:Hmerge; simpl.
  - repeat split. intros f. by rewrite Hmerge.
  - destruct (RunInstall w _ _ _) as [rel [e|]] eqn:Hrun; simpl.
    + repeat split. intros f. by rewrite Hmerge, Hrun.
    + repeat split. intros f. by rewrite Hmerge, Hrun.
Qed.

End HelmFacts.

(* ================================================================== *)
(** ** More on the handlers and on the engine *)
(* ================================================================== *)

Section HandlerMore.

Import Driver DriverMore.

Context {Item Filter PState CState : Type}.

Local Abbreviation JobHandler := (JobHandler Item Filter PState CState).
Local Abbreviation World := (World Item Filter PState CState).


(** X15.  What [Handle] takes from the provider is taken for good: the
    state the provider is left in does not depend on the client, on the
    database or on the outcome of the call.  An operation that fails
    has used up its item, batch or filter all the same. *)
Theorem Handle_uses_up_provider (j : JobHandler) (w : World)
    (cl : Client Item Filter CState) (c : CState) :
  pstate (snd (Handle (with_client cl j) (with_cstate c w)))
  = pstate (snd (Handle j w)).
Proof.
  destruct j as [h|h|h|h];
    unfold Handle, bind, ask_provider, ask_client, with_client, with_cstate;
    cbn [base_of pstate cstate calls provider client].
  - destruct (GetSingleItem _ _) as [i p]; cbn.
    by destruct (InsertOne cl _ _), (InsertOne (client h) _ _).
  - destruct (GetBatch _ _ _) as [l p]; cbn.
    by destruct (InsertMany cl _ _), (InsertMany (client h) _ _).
  - destruct (GetFilter _ _) as [f p]; cbn.
    by destruct (ReadOne cl _ _), (ReadOne (client h) _ _).
  - destruct (GetFilter _ _) as [f p]; cbn.
    destruct (GetSingleItem _ _) as [i p']; cbn.
    by destruct (UpdateOne cl _ _ _), (UpdateOne (client h) _ _ _).
Qed.

End HandlerMore.

Section EngineMore.

Import Worker Mongoload.

Lemma not_all_exited (ws : list wpc) :
  count_pc is_exited ws < Z.of_nat (length ws) ->
  exists w pc, ws !! w = Some pc /\ pc <> WExited.
Proof.
  induction ws as [|x ws IH]; [unfold count_pc; simpl; lia|].
  rewrite count_pc_cons. simpl length. intros Hlt.
  destruct x; try (by exists 0%nat; eexists; split; [reflexivity|]).
  destruct IH as (w & pc & Hw & Hpc); [simpl in Hlt; lia|].
  by exists (S w), pc.
Qed.

(** X16.  The counter of the wait group, in every run of an engine
    [New] has built: it is never negative, and it is the configured
    number of workers, wrapped to the 32 bits of the counter, less the
    number of workers that have exited.  When the connection count fits
    these 32 bits, the counter is the configured number itself less the
    number of those that have exited, whether started yet or not, and
    it is zero exactly when all the configured workers have been
    started and have exited. *)
Theorem wait_group_counts now ops conns rl d database load err
    (sched : list action) :
  New now ops conns rl d database = Returned (load, err) ->
  let st := run sched (init load) in
  wg (ml st)
  = to_int32 (concurrentConnections load) - count_pc is_exited (workers st)
  /\ 0 <= wg (ml st)
  /\ (- 2 ^ 31 <= conns < 2 ^ 31 ->
      wg (ml st)
      = concurrentConnections load - count_pc is_exited (workers st)
      /\ (wg (ml st) = 0
          <-> Z.of_nat (length (workers st)) = concurrentConnections load
              /\ all_exited st = true)).
Proof.
  intros Hnew st.
  destruct (New_returned_any _ _ _ _ _ _ _ _ Hnew)
    as (_ & _ & Hwrap & Hpos & _).
  destruct (counted_run load sched Hwrap Hpos) as (Hp & Hcount & _).
  destruct (configured_run load sched) as [_ Hconns].
  fold st in Hp, Hcount, Hconns. rewrite Hconns in *.
  do 2 (split; [done|]). intros Hfit.
  destruct (New_returned _ _ _ _ _ _ _ _ Hnew Hfit)
    as (_ & _ & _ & Hwg & Hc & _).
  destruct (joined_run load sched Hwg ltac:(lia))
    as (_ & Hjoined & Hle & _).
  fold st in Hjoined, Hle. rewrite Hconns in *.
  pose proof (count_pc_range is_exited (workers st)) as Hrange.
  unfold all_exited. rewrite all_exited_full.
  repeat split; lia.
Qed.

(** X17.  [Torment] does not wait for nothing: in every run of an
    engine [New] has built from a connection count that is not
    negative, when [Torment] is in [wg.Wait] and cannot go on, some
    worker it has started has not exited yet.  This holds beyond the 32
    bits of the counter too, where the wait may be that of a program
    that has panicked. *)
Theorem Torment_waits_for_a_worker now ops conns rl d database load err
    (sched : list action) (t : Z) :
  New now ops conns rl d database = Returned (load, err) ->
  0 <= conns ->
  let st := run sched (init load) in
  main st = MWait ->
  step st (Main t) = st ->
  exists w pc, workers st !! w = Some pc /\ pc <> WExited.
Proof.
  intros Hnew Hconns st Hmain Hstuck.
  destruct (New_returned_any _ _ _ _ _ _ _ _ Hnew)
    as (_ & Hc & Hwrap & Hpos & _).
  destruct (counted_run load sched Hwrap Hpos)
    as (_ & Hcount & _ & _ & Hm & Hcrash).
  destruct (configured_run load sched) as [_ Hsame].
  fold st in Hcount, Hm, Hcrash, Hsame. rewrite Hmain in Hm.
  rewrite Hsame in *.
  assert (0 <= concurrentConnections load) as Hnat
    by (rewrite Hc; destruct (conns =? 0); lia).
  pose proof (to_int32_below _ Hnat) as Hbelow.
  apply not_all_exited.
  destruct (crashed st) as [msg|] eqn:Hcr; [by apply Hcrash|].
  destruct (Z.eq_dec (wg (ml st)) 0) as [Hzero|Hleft].
  - exfalso. unfold step in Hstuck. rewrite Hcr in Hstuck.
    unfold Torment in Hstuck. rewrite Hmain, Hzero in Hstuck. simpl in Hstuck.
    assert (main (with_main MSince st) = main st) as Habs
      by (by rewrite Hstuck).
    simpl in Habs. by rewrite Hmain in Habs.
  - pose proof (count_pc_range is_exited (workers st)).
    destruct (counted_run load sched Hwrap Hpos) as (Hp & _).
    fold st in Hp. lia.
Qed.

End EngineMore.

(* ================================================================== *)
(** ** The further properties on concrete inputs *)
(* ================================================================== *)

Section MoreExamples.

Import LbotDemo MoreDemo.

Local Abbreviation demo_Run :=
  (Lbot.Run (DataPool := nat) fst fst snd demo_new_worker).

(** X1, on three schemas of which two are named "users": the job that
    asks for "users" is handed the pool of the later one; and on a
    configuration without a schema named "orders": the job that asks
    for it is handed the nil pool. *)
Lemma Run_pools_last_schema_wins_witness :
  (exists post,
      Lbot.calls (Lbot.machine_of (demo_Run (demo_machine demo_config)))
      = [Lbot.CallNewDataPool ("users"%string, 1%nat);
         Lbot.CallNewDataPool ("orders"%string, 2%nat);
         Lbot.CallNewDataPool ("users"%string, 3%nat);
         Lbot.CallNewWorker ("users"%string, true) (Some 3%nat)] ++ post)
  /\ (exists post,
        Lbot.calls (Lbot.machine_of (demo_Run (demo_machine failing_config)))
        = [Lbot.CallNewDataPool ("users"%string, 1%nat)]
          ++ Lbot.cycle fst fst snd demo_new_worker tt failing_config
               ("users"%string, true)
          ++ Lbot.CallNewWorker ("orders"%string, false) None :: post).
Proof.
  split.
  - destruct (Run_pools_last_schema_wins fst fst snd demo_new_worker
                demo_config (demo_machine demo_config)
                [] ("users"%string, true) [("orders"%string, true)]
                eq_refl eq_refl ltac:(constructor))
      as (_ & _ & Hlast).
    exact (Hlast [("users", 1%nat); ("orders", 2%nat)]%string
             ("users"%string, 3%nat) [] eq_refl eq_refl ltac:(constructor)).
  - destruct (Run_pools_last_schema_wins fst fst snd demo_new_worker
                failing_config (demo_machine failing_config)
                [("users"%string, true)] ("orders"%string, false)
                [("users"%string, true)]
                eq_refl eq_refl ltac:(by repeat constructor))
      as (_ & Hnone & _).
    apply Hnone. repeat constructor; discriminate.
Defined.

(** X2, on two jobs whose workers can be made. *)
Lemma Run_serves_jobs_in_order_witness :
  exists m, demo_Run (demo_machine demo_config) = Lbot.Done m
            /\ Lbot.workers (Lbot.bot m) = ["users"; "orders"]%string.
Proof.
  eexists. split.
  - apply (Run_serves_jobs_in_order fst fst snd demo_new_worker
             demo_config (demo_machine demo_config)); [reflexivity|].
    repeat constructor.
  - reflexivity.
Defined.

(** X3, on three jobs of which the second cannot be served. *)
Lemma Run_panics_at_first_failure_witness :
  exists m,
    demo_Run (demo_machine failing_config)
    = Lbot.Panic "Worker initialization error" m
    /\ Lbot.workers (Lbot.bot m) = ["users"; "orders"]%string
    /\ last (Lbot.calls m) = Some (Lbot.CallNewWorker ("orders"%string, false) None).
Proof.
  eexists. split; [|split].
  - apply (Run_panics_at_first_failure fst fst snd demo_new_worker
             failing_config (demo_machine failing_config)
             [("users"%string, true)] ("orders"%string, false)
             [("users"%string, true)]); try reflexivity.
    repeat constructor.
  - reflexivity.
  - reflexivity.
Defined.

(** X4, on a bot that was never configured, and on one that was. *)
Lemma Run_returns_iff_witness :
  Lbot.machine_of
    (demo_Run {| Lbot.bot := Lbot.NewLbot tt; Lbot.calls := [] |})
  = {| Lbot.bot := Lbot.NewLbot tt; Lbot.calls := [] |}
  /\ Lbot.panicked (demo_Run (demo_machine demo_config)) = None.
Proof.
  split.
  - apply (proj2 (Run_returns_iff fst fst snd demo_new_worker
                    {| Lbot.bot := Lbot.NewLbot tt; Lbot.calls := [] |})).
    reflexivity.
  - apply (proj1 (Run_returns_iff fst fst snd demo_new_worker
                    (demo_machine demo_config))).
    exists demo_config. split; [reflexivity|]. repeat constructor.
Defined.

(** X6, on the same two jobs. *)
Lemma bot_lifecycle_witness :
  exists m,
    demo_Run (demo_machine demo_config) = Lbot.Done m
    /\ Lbot.bot (fst (Lbot.Cancel m))
       = Lbot.SetConfig (Some demo_config) (Lbot.NewLbot tt).
Proof.
  destruct (bot_lifecycle fst fst snd demo_new_worker tt demo_config)
    as (m & Hrun & Hcancel & _); [repeat constructor|].
  exists m. split; [exact Hrun|]. by rewrite Hcancel.
Defined.

(** X7, on a decoder that fails and a [srv] that is no server. *)
Lemma handlers_reject_undecoded_witness :
  Proto.ConfigService_SetConfig_Handler (ConfigResponse := nat) (Ctx := unit)
    0%nat Proto.NotAServer tt failing_dec None
  = Returned (None, Some (Proto.Plain "malformed")).
Proof.
  apply (handlers_reject_undecoded (ConfigResponse := nat) 0%nat
           Proto.NotAServer tt failing_dec None (Proto.Plain "malformed"));
    reflexivity.
Defined.

(** X8, on the interceptor that passes everything on. *)
Lemma handlers_transparent_interceptor_witness :
  Proto.ConfigService_SetConfig_Handler 0%nat
    (Proto.Implements echo_server) tt good_dec (Some plain_interceptor)
  = Returned (Some (Proto.MsgConfigResponse (Some 7%nat)), None).
Proof.
  rewrite (proj1 (handlers_transparent_interceptor 0%nat
                    (Proto.Implements echo_server) tt good_dec None
                    plain_interceptor (fun _ _ _ _ => eq_refl))).
  reflexivity.
Defined.

(** X10, on a file named together with stdin. *)
Lemma config_sources_witness :
  Cli.configRunE stdin_parser file_parser agent_accepts "load.json" true
  = ([Cli.CallParseStdInConfig; Cli.CallParseConfigFile "load.json";
      Cli.CallSetConfigWorkload (Some 2%nat)], None).
Proof.
  destruct (config_sources stdin_parser file_parser agent_accepts
              "load.json") as (_ & Hboth & _).
  apply Hboth; [discriminate|reflexivity|reflexivity].
Defined.

(** X11, on stdin alone. *)
Lemma config_sends_parsed_only_witness :
  snd (Cli.configRunE stdin_parser file_parser agent_accepts "" true)
  = agent_accepts (Some 1%nat).
Proof.
  destruct (config_sends_parsed_only stdin_parser file_parser agent_accepts
              "" true) as (_ & Hsent & _).
  exact (proj2 (Hsent eq_refl)).
Defined.

(** X12, on a chart that does not load. *)
Lemma NewHelmManager_outcome_witness :
  fst (ResourceManager.NewHelmManager chartless_world helm_config)
  = [ResourceManager.CallLoadArchive]
  /\ snd (snd (ResourceManager.NewHelmManager chartless_world helm_config))
     = Some "bad archive"%string.
Proof.
  destruct (NewHelmManager_outcome chartless_world helm_config)
    as (_ & Hchart & _).
  exact (Hchart "bad archive"%string eq_refl).
Defined.

(** X13, on an installation that Helm fails. *)
Lemma Install_outcome_witness :
  snd (ResourceManager.Install helm_world helm_manager helm_request)
  = Returned (Some "failed to install helm chart: timed out"%string).
Proof.
  destruct (Install_outcome helm_world helm_manager helm_request 2%nat
              eq_refl) as (_ & _ & Herr & _).
  exact Herr.
Defined.


(** X16, on a whole run of one worker: the counter is back at zero. *)
Lemma wait_group_counts_witness :
  Mongoload.wg
    (Mongoload.ml
       (Mongoload.run (Demo.single_run true None)
          (Mongoload.init Demo.one_worker))) = 0.
Proof.
  destruct (wait_group_counts 0 1 1 0 0 Demo.demo_db Demo.one_worker None
              (Demo.single_run true None) New_one_worker)
    as (_ & _ & Hfits).
  destruct (Hfits ltac:(lia)) as (_ & Hzero).
  apply Hzero. split; reflexivity.
Defined.

(** X17, on a run that leaves [Torment] waiting for its worker. *)
Lemma Torment_waits_for_a_worker_witness :
  exists w pc,
    Mongoload.workers
      (Mongoload.run waiting_run (Mongoload.init Demo.one_worker)) !! w
    = Some pc
    /\ pc <> Mongoload.WExited.
Proof.
  apply (Torment_waits_for_a_worker 0 1 1 0 0 Demo.demo_db Demo.one_worker
           None waiting_run 9 New_one_worker ltac:(lia));
    vm_compute; reflexivity.
Defined.

End MoreExamples.
